(** * pokki: the movie-listing scraper of [app.py]

    A shallow embedding of [app.py] and the properties of its record
    extractor ([extract_movies_from_soup]), its page fetcher ([fetch_html])
    and its entry point ([main]).

    Python strings are modelled by [string]: a character is a code point
    below 256.  Python [int] is modelled by [Z] and Python [float] by the
    rational [Q] it stands for: the rounding of doubles, the infinities
    and NaN are not modelled.  [None] is modelled by [option], exceptions
    by the [result] type and the statements of a function body by a
    state-and-exception monad over what the body changes.

    Two limits of the interpreter are part of the model.  The depth that
    the recursion limit leaves to [tag.string], which BeautifulSoup
    computes by one Python call for each nested tag, is a variable
    [depth] of the development: the statements hold for every depth,
    and a statement on a sample page says which depth it needs.  The
    range of the clock of [time.sleep] is given by the constants
    [clock_min] and [clock_max]. *)

From Stdlib Require Import String Ascii List ZArith QArith Lia Bool Arith.
Import ListNotations.
Close Scope Q_scope.
Open Scope string_scope.

Set Implicit Arguments.

(** ** Characters and strings *)

Module Str.

(** [str.isspace], which is also [\s] and what [str.strip] removes, on
    the code points below 256: tab, line feed, vertical tab, form feed,
    carriage return, the four separators 28..31, the space, the next
    line character 133 and the no-break space 160. *)
Definition is_space (c : ascii) : bool :=
  let n := nat_of_ascii c in
  (((9 <=? n) && (n <=? 13)) || ((28 <=? n) && (n <=? 32)) ||
   (n =? 133) || (n =? 160))%nat.

(** [\d] on the code points below 256: the ten ASCII digits (the
    superscript digits of Latin-1 are no decimal digits). *)
Definition is_digit (c : ascii) : bool :=
  let n := nat_of_ascii c in ((48 <=? n) && (n <=? 57))%nat.

Definition digit_value (c : ascii) : Z := Z.of_nat (nat_of_ascii c - 48).

(** Lower case of the letters A to Z.  The patterns that [app.py]
    compiles with [re.I] are made of ASCII characters, and below 256 no
    other character matches an ASCII letter when case is ignored. *)
Definition lower_ascii (c : ascii) : ascii :=
  let n := nat_of_ascii c in
  if ((65 <=? n) && (n <=? 90))%nat then ascii_of_nat (n + 32) else c.

Fixpoint lower (s : string) : string :=
  match s with
  | EmptyString => EmptyString
  | String c r => String (lower_ascii c) (lower r)
  end.

Fixpoint lstrip (s : string) : string :=
  match s with
  | EmptyString => EmptyString
  | String c r => if is_space c then lstrip r else s
  end.

Fixpoint rstrip (s : string) : string :=
  match s with
  | EmptyString => EmptyString
  | String c r =>
      match rstrip r with
      | EmptyString => if is_space c then EmptyString else String c EmptyString
      | r' => String c r'
      end
  end.

(** [s.strip()] *)
Definition strip (s : string) : string := rstrip (lstrip s).

(** Truth value of a Python string: [if s:] *)
Definition truthy (s : string) : bool :=
  match s with EmptyString => false | _ => true end.

(** [sep.join(parts)] *)
Fixpoint join (sep : string) (parts : list string) : string :=
  match parts with
  | [] => EmptyString
  | [p] => p
  | p :: rest => p ++ sep ++ join sep rest
  end.

(** [s.startswith(p)] *)
Fixpoint starts_with (p s : string) : bool :=
  match p, s with
  | EmptyString, _ => true
  | String a p', String b s' => Ascii.eqb a b && starts_with p' s'
  | String _ _, EmptyString => false
  end.

(** [p in s]; also [re.search(p, s)] for a pattern [p] made of literal
    characters only, such as [/release-year/], [/genre/] and [jt-imdb]. *)
Fixpoint contains (p s : string) : bool :=
  starts_with p s ||
  match s with
  | EmptyString => false
  | String _ s' => contains p s'
  end.

(** [re.search(p, s, re.I)] for a pattern of literal characters. *)
Definition icontains (p s : string) : bool := contains (lower p) (lower s).

End Str.

(** ** The regular expressions of [app.py] *)

Module Re.
Import Str.

(** The longest prefix of digits and what follows it. *)
Fixpoint span_digits (s : string) : string * string :=
  match s with
  | EmptyString => (EmptyString, EmptyString)
  | String c r =>
      if is_digit c
      then let '(d, rest) := span_digits r in (String c d, rest)
      else (EmptyString, s)
  end.

(** [re.search(r"(\d+(\.\d+)?)", s)]: group 1 of the leftmost match.  Both
    repetitions are greedy, so the match is the longest run of digits
    that starts at the first digit of [s], followed by a dot and a run of
    digits when there is one. *)
Fixpoint search_decimal (s : string) : option string :=
  match s with
  | EmptyString => None
  | String c r =>
      if is_digit c then
        let '(d, rest) := span_digits s in
        match rest with
        | String "." rest' =>
            match span_digits rest' with
            | (EmptyString, _) => Some d
            | (f, _) => Some (d ++ "." ++ f)
            end
        | _ => Some d
        end
      else search_decimal r
  end.

(** [re.search(r"\d{4}", s)]: group 0 of the leftmost match. *)
Fixpoint search_4digits (s : string) : option string :=
  match s with
  | String a (String b (String c (String d _)) as r) =>
      if is_digit a && is_digit b && is_digit c && is_digit d
      then Some (String a (String b (String c (String d EmptyString))))
      else search_4digits r
  | _ => None
  end.

(** [re.search(r"\d+\s*min", s, re.I)] as a truth value: some digit is
    followed by white space (possibly none) and then by [min] in any
    letter case. *)
Fixpoint search_min (s : string) : bool :=
  match s with
  | EmptyString => false
  | String c r =>
      (is_digit c && starts_with "min" (lower (lstrip r))) || search_min r
  end.

End Re.

(** ** Exceptions and Python's conversions *)

Inductive exn : Type :=
| ValueError
| TypeError
| AttributeError
| UnboundLocalError (var : string)
| RecursionError
| OverflowError
| RequestException (msg : string).

Inductive result (A : Type) : Type :=
| Ok (a : A)
| Raise (e : exn).

Arguments Ok {A} a.
Arguments Raise {A} e.

Module Py.
Import Str.

(** The white space that [int] skips around a literal: the white space
    of C (tab to carriage return, and the space) and, below 256, the
    next line character 133 and the no-break space 160.  The separators
    28..31, which [str.strip] removes, are not skipped by [int]. *)
Definition is_int_space (c : ascii) : bool :=
  let n := nat_of_ascii c in
  (((9 <=? n) && (n <=? 13)) || (n =? 32) || (n =? 133) || (n =? 160))%nat.

Fixpoint skip_left (s : string) : string :=
  match s with
  | EmptyString => EmptyString
  | String c r => if is_int_space c then skip_left r else s
  end.

Fixpoint skip_right (s : string) : string :=
  match s with
  | EmptyString => EmptyString
  | String c r =>
      match skip_right r with
      | EmptyString =>
          if is_int_space c then EmptyString else String c EmptyString
      | r' => String c r'
      end
  end.

Inductive int_state : Type := AtStart | AfterDigit | AfterUnderscore.

(** The digits of an [int] literal: decimal digits, with single
    underscores allowed between two digits. *)
Fixpoint int_digits (st : int_state) (acc : Z) (s : string) : option Z :=
  match s with
  | EmptyString =>
      match st with AfterDigit => Some acc | _ => None end
  | String c r =>
      if is_digit c then int_digits AfterDigit (acc * 10 + digit_value c) r
      else if Ascii.eqb c "_" then
        match st with
        | AfterDigit => int_digits AfterUnderscore acc r
        | _ => None
        end
      else None
  end.

(** The number of digits of a literal. *)
Fixpoint digit_count (s : string) : nat :=
  match s with
  | EmptyString => O
  | String c r => if is_digit c then S (digit_count r) else digit_count r
  end.

(** The longest literal that [int] converts, in digits: the default of
    [sys.int_info.default_max_str_digits]. *)
Definition max_str_digits : nat := 4300.

(** [int(s)] for a string [s]: white space around the literal is
    skipped, a sign is allowed, and anything else raises [ValueError],
    as does a literal of more than [max_str_digits] digits. *)
Definition int (s : string) : result Z :=
  let t := skip_right (skip_left s) in
  let parsed :=
    match t with
    | String "-" r => option_map Z.opp (int_digits AtStart 0 r)
    | String "+" r => int_digits AtStart 0 r
    | _ => int_digits AtStart 0 t
    end in
  match parsed with
  | Some z =>
      if (max_str_digits <? digit_count t)%nat then Raise ValueError else Ok z
  | None => Raise ValueError
  end.

(** The value of a run of decimal digits. *)
Fixpoint digits_value (acc : Z) (s : string) : Z :=
  match s with
  | EmptyString => acc
  | String c r => digits_value (acc * 10 + digit_value c) r
  end.

(** [float(s)] on a literal [digits] or [digits.digits], the only
    strings that [parse_imdb] passes to it: the integer part plus the
    fraction over the power of ten of its length.  The model raises on
    every other string, some of which Python accepts. *)
Definition float (s : string) : result Q :=
  match Re.span_digits s with
  | (EmptyString, _) => Raise ValueError
  | (ip, EmptyString) => Ok (inject_Z (digits_value 0 ip))
  | (ip, String "." fp) =>
      match Re.span_digits fp with
      | (EmptyString, _) => Raise ValueError
      | (_, String _ _) => Raise ValueError
      | (_, EmptyString) =>
          Ok (Qplus (inject_Z (digits_value 0 ip))
                    (Qmake (digits_value 0 fp)
                           (Pos.pow 10 (Pos.of_nat (String.length fp)))))
      end
  | _ => Raise ValueError
  end.

End Py.

(** ** The document tree of BeautifulSoup *)

(** A parsed page: a [Tag] has a name, its [class] attribute as the list
    of its tokens (BeautifulSoup splits this attribute on white space),
    its other attributes as a dictionary from names to strings, and its
    children; a [NavigableString] is a piece of text.  The [BeautifulSoup]
    object itself is a [Tag] whose name is [[document]]. *)
#[warnings="-register-all"]
Inductive node : Type :=
| NavigableString (s : string)
| Tag (name : string) (class_ : list string)
      (attrs : list (string * string)) (contents : list node).

Module Bs4.
Import Str.

Definition is_tag (n : node) : bool :=
  match n with Tag _ _ _ _ => true | NavigableString _ => false end.

Definition name (n : node) : option string :=
  match n with Tag nm _ _ _ => Some nm | NavigableString _ => None end.

Definition classes (n : node) : list string :=
  match n with Tag _ cl _ _ => cl | NavigableString _ => [] end.

Fixpoint lookup (k : string) (d : list (string * string)) : option string :=
  match d with
  | [] => None
  | (k', v) :: d' => if String.eqb k k' then Some v else lookup k d'
  end.

(** [tag.get(key)] *)
Definition get (key : string) (n : node) : option string :=
  match n with
  | Tag _ _ at_ _ => lookup key at_
  | NavigableString _ => None
  end.

(** [tag.descendants]: every node below [n], in document order. *)
Fixpoint descendants (n : node) : list node :=
  match n with
  | NavigableString _ => []
  | Tag _ _ _ cs => flat_map (fun c => c :: descendants c) cs
  end.

(** What [tag.string] returns when it returns: the text of a tag whose
    only child is a piece of text, or whose only child is a tag that has
    a [string] itself; [None] for a tag with no child or with more than
    one.  The computation itself, which can fail, is [string_bounded]. *)
Fixpoint string_ (n : node) : option string :=
  match n with
  | NavigableString s => Some s
  | Tag _ _ _ [c] => string_ c
  | Tag _ _ _ _ => None
  end.

(** The length of the chain of only children that starts at a tag: the
    number of nested calls that [tag.string] makes. *)
Fixpoint chain (n : node) : nat :=
  match n with
  | NavigableString _ => O
  | Tag _ _ _ [c] => S (chain c)
  | Tag _ _ _ _ => 1
  end.

(** [tag.string] as the interpreter computes it.  The property is a
    Python function that calls itself on the only child when this child
    is a tag, so a chain of nested only children takes one call for each
    tag; with [depth] the number of calls that the recursion limit still
    allows, a longer chain raises [RecursionError]. *)
Fixpoint string_bounded (depth : nat) (n : node) {struct n}
  : result (option string) :=
  match n with
  | NavigableString s => Ok (Some s)
  | Tag _ _ _ cs =>
      match depth with
      | O => Raise RecursionError
      | S d =>
          match cs with
          | [c] => string_bounded d c
          | _ => Ok None
          end
      end
  end.

(** The strings of [tag.get_text(separator, strip=True)] before they are
    joined: every piece of text below [n] in document order, stripped,
    the empty ones left out. *)
Definition stripped_strings (n : node) : list string :=
  filter truthy
    (flat_map (fun d => match d with
                        | NavigableString s => [strip s]
                        | Tag _ _ _ _ => []
                        end) (descendants n)).

(** [tag.get_text(separator=sep, strip=True)] *)
Definition get_text (sep : string) (n : node) : string :=
  join sep (stripped_strings n).

(** How BeautifulSoup matches the multi-valued [class] attribute against
    a string or a compiled pattern [p]: one of the tokens matches, or the
    tokens joined by a space match. *)
Definition class_matches (p : string -> bool) (n : node) : bool :=
  existsb p (classes n) || p (join " " (classes n)).

(** How BeautifulSoup matches a single-valued attribute: the attribute
    is present and its value matches. *)
Definition attr_matches (key : string) (p : string -> bool) (n : node) : bool :=
  match get key n with Some v => p v | None => false end.

(** The [string=] argument next to a tag name, when [tag.string]
    returns: BeautifulSoup compares the tag's [.string], so the tag
    passes when its [.string] is there and matches, and not when its text
    is spread over several children. *)
Definition string_matches (p : string -> bool) (n : node) : bool :=
  match n with
  | Tag _ _ _ _ => match string_ n with Some s => p s | None => false end
  | NavigableString _ => false
  end.

Definition named (nm : string) (n : node) : bool :=
  match name n with Some nm' => String.eqb nm nm' | None => false end.

(** [tag.find_all(...)] with the tests of the call collected in [p]:
    the tags below [n] that pass, in document order. *)
Definition find_all (p : node -> bool) (n : node) : list node :=
  filter (fun d => is_tag d && p d) (descendants n).

(** [tag.find(...)]: the first result of [find_all], or [None]. *)
Definition find (p : node -> bool) (n : node) : option node :=
  List.find (fun d => is_tag d && p d) (descendants n).

(** [tag.find("div", string=pattern)] over the nodes [l] in document
    order: the name is tested first, [tag.string] is computed for the
    [div]s only, one after the other up to the first that passes, and its
    [RecursionError] ends the search. *)
Fixpoint find_div_in (depth : nat) (p : string -> bool) (l : list node)
  : result (option node) :=
  match l with
  | [] => Ok None
  | d :: rest =>
      if is_tag d && named "div" d then
        match string_bounded depth d with
        | Raise e => Raise e
        | Ok (Some s) => if p s then Ok (Some d) else find_div_in depth p rest
        | Ok None => find_div_in depth p rest
        end
      else find_div_in depth p rest
  end.

Definition find_div (depth : nat) (p : string -> bool) (n : node)
  : result (option node) :=
  find_div_in depth p (descendants n).

End Bs4.

(** ** Records *)

Module Links.
(** The [links] dictionary of a movie. *)
Record t : Type := Build {
  watch : option string;
  year : option string;
  country : option string;
  genres : list (option string)
}.
End Links.

Module Movie.
(** The dictionary that [extract_movies_from_soup] builds for one item. *)
Record t : Type := Build {
  id : option Z;
  title : option string;
  year : option Z;
  language : option string;
  imdb_rating : option Q;
  duration : option string;
  thumbnail : option string;
  description : option string;
  country : option string;
  genres : list string;
  links : Links.t
}.
End Movie.

(** The lines that the program prints, one constructor for each [print]
    of [app.py]. *)
Inductive out_line : Type :=
| ErrorParsingItem (e : exn)
| FetchAttemptStatus (attempt : Z) (status_code : Z)
| FetchAttemptError (attempt : Z) (e : exn)
| FailedToFetch (url : string)
| WroteMovies (count : nat) (file : string).

(** ** Function bodies: state and exceptions *)

(** What the body of [extract_movies_from_soup] assigns.  The variables
    [watch_link], [language] and [thumbnail] are assigned on one branch
    only, so each is either unbound ([None]) or bound to a value; the
    other variables of the body are assigned on every path before they
    are read and are bound by [let] in the embedding. *)
Record frame : Type := Frame {
  watch_link : option (option string);
  language : option (option string);
  thumbnail : option (option string);
  movies : list Movie.t;
  stdout : list out_line
}.

(** A statement over a state [S]: it runs in a state, changes it, and
    ends normally with a value or abruptly with an exception; what it
    changed before the exception stays changed. *)
Definition M (S A : Type) : Type := S -> result A * S.

Definition ret {S A} (a : A) : M S A := fun s => (Ok a, s).

Definition bind {S A B} (m : M S A) (k : A -> M S B) : M S B :=
  fun s => match m s with
           | (Ok a, s') => k a s'
           | (Raise e, s') => (Raise e, s')
           end.

Definition raise {S A} (e : exn) : M S A := fun s => (Raise e, s).

Definition lift {S A} (r : result A) : M S A := fun s => (r, s).

Notation "x <- m ;; k" := (bind m (fun x => k))
  (at level 61, m at next level, right associativity).
Notation "' pat <- m ;; k" :=
  (bind m (fun x => match x with pat => k end))
  (at level 61, pat pattern, m at next level, right associativity).
Notation "m ;; k" := (bind m (fun _ => k))
  (at level 61, right associativity).

(** [try: body except: handler] *)
Definition try_except {S A} (body : M S A) (handler : exn -> M S A) : M S A :=
  fun s => match body s with
           | (Ok a, s') => (Ok a, s')
           | (Raise e, s') => handler e s'
           end.

(** [for x in xs: body] *)
Fixpoint for_each {S A} (xs : list A) (body : A -> M S unit) : M S unit :=
  match xs with
  | [] => ret tt
  | x :: rest => body x ;; for_each rest body
  end.

Definition set_watch_link (v : option string) : M frame unit :=
  fun s => (Ok tt, Frame (Some v) (language s) (thumbnail s) (movies s) (stdout s)).
Definition set_language (v : option string) : M frame unit :=
  fun s => (Ok tt, Frame (watch_link s) (Some v) (thumbnail s) (movies s) (stdout s)).
Definition set_thumbnail (v : option string) : M frame unit :=
  fun s => (Ok tt, Frame (watch_link s) (language s) (Some v) (movies s) (stdout s)).

(** Reading a local variable: [UnboundLocalError] when it is unbound. *)
Definition read (var : string) (slot : frame -> option (option string))
  : M frame (option string) :=
  fun s => match slot s with
           | Some v => (Ok v, s)
           | None => (Raise (UnboundLocalError var), s)
           end.

(** [movies.append(movie)] *)
Definition movies_append (m : Movie.t) : M frame unit :=
  fun s => (Ok tt, Frame (watch_link s) (language s) (thumbnail s)
                         (movies s ++ [m]) (stdout s)).

(** [print(...)] *)
Definition print (l : out_line) : M frame unit :=
  fun s => (Ok tt, Frame (watch_link s) (language s) (thumbnail s)
                         (movies s) (stdout s ++ [l])).

(** ** The process and what is around it *)

(** A JSON document, as [json.dump] is given it. *)
#[warnings="-register-all"]
Inductive json : Type :=
| JNull
| JInt (z : Z)
| JFloat (f : Q)
| JStr (s : string)
| JList (l : list json)
| JDict (d : list (string * json)).

(** What [session.get] comes back with: a response, or an exception of
    the transport. *)
Record response : Type := Response { status_code : Z; text : string }.

Inductive http_outcome : Type :=
| Answer (r : response)
| Failure (msg : string).

Module World.
(** The state of the process: [net] tells what the n-th request of the
    run meets, [requests] are the URLs requested so far, [slept] the
    delays of [time.sleep] so far, [stdout] the lines printed so far and
    [files] the files written so far, the latest first.  Writing a file
    and parsing a page are taken to succeed. *)
Record t : Type := Build {
  net : nat -> http_outcome;
  requests : list string;
  slept : list Q;
  stdout : list out_line;
  files : list (string * json)
}.
End World.

(** The longest and the shortest delay, in seconds, that the clock of
    [time.sleep] counts: the delay is counted in nanoseconds, rounded
    away from zero, on 64 bits. *)
Definition clock_max : Q := 9223372036854775807 # 1000000000.
Definition clock_min : Q := (-9223372036854775808) # 1000000000.

(** ** Sample pages *)

Module Sample.

Definition txt (s : string) : node := NavigableString s.

(** The link and mask of an item, with its badge, image and heading. *)
Definition mask (href title : string) : node :=
  Tag "a" ["ml-mask"; "jt"] [("href", href)]
    [Tag "span" ["mli-quality"] [] [txt "HD"];
     Tag "img" ["thumb"] [("data-original", "/img/1.jpg")] [];
     Tag "span" ["mli-info"] [] [Tag "h2" [] [] [txt title]]].

(** A details block: rating, year, duration, description, and the
    country and genre blocks [more]. *)
Definition tip (more : list node) : node :=
  Tag "div" [] [("id", "hidden_tip")]
    ([Tag "div" ["jt-info"; "jt-imdb"] [] [txt " IMDb: 7.5 "];
      Tag "div" ["jt-info"] []
        [Tag "a" [] [("href", "/release-year/2021/")] [txt "Release Year: 2021"]];
      Tag "div" ["jt-info"] [] [txt "77 min"];
      Tag "p" ["f-desc"] [] [Tag "p" [] [] [txt "A story."]]] ++ more).

Definition genre_links : list node :=
  [Tag "a" [] [("href", "/genre/action/")] [txt "Action"];
   Tag "a" [] [("href", "/genre/drama/")] [txt "Drama"];
   Tag "a" [] [("href", "/genre/action/page/2/")] [txt "Action"]].

(** An item with everything in place. *)
Definition complete : node :=
  Tag "div" ["ml-item"] [("data-movie-id", "123")]
    [mask "/watch/1" "Movie One"; tip genre_links].

(** An item with no mask. *)
Definition maskless : node :=
  Tag "div" ["ml-item"] [("data-movie-id", "456")] [tip genre_links].

(** An item whose id, year and rating do not read as numbers. *)
Definition wordy : node :=
  Tag "div" ["ml-item"] [("data-movie-id", "tt-x12")]
    [mask "/watch/3" "Movie Three";
     Tag "div" ["jt-imdb"] [] [txt "IMDb: n/a"];
     Tag "a" [] [("href", "/release-year/soon/")] [txt "coming soon"]].

(** An item whose country block is labelled in lower case. *)
Definition lower_country : node :=
  Tag "div" ["ml-item"] [("data-movie-id", "7")]
    [mask "/watch/7" "Movie Seven";
     tip [Tag "div" ["block"] []
            [Tag "a" [] [("href", "/country/india/")] [txt "country: India"]]]].

(** An item whose country block holds the label next to its link. *)
Definition beside_label : node :=
  Tag "div" ["ml-item"] [("data-movie-id", "6")]
    [mask "/watch/6" "Movie Six";
     tip [Tag "div" ["block"] []
            [txt "Country: ";
             Tag "a" [] [("href", "/country/india/")] [txt "India"]]]].

(** An item whose genre block is labelled in upper case and holds no
    link, with genre links next to it. *)
Definition upper_genre : node :=
  Tag "div" ["ml-item"] [("data-movie-id", "8")]
    [mask "/watch/8" "Movie Eight";
     tip (Tag "div" ["block"] [] [txt "GENRE: N/A"] :: genre_links)].

(** An item whose genre block holds its links. *)
Definition genre_block : node :=
  Tag "div" ["ml-item"] [("data-movie-id", "9")]
    [mask "/watch/9" "Movie Nine";
     tip [Tag "div" ["block"] []
            [Tag "span" [] []
               [Tag "a" [] [("href", "/genre/war/")] [txt "Genre: War"]]]]].

Definition page (items : list node) : node :=
  Tag "[document]" [] []
    [Tag "html" [] []
       [Tag "body" [] [] [Tag "div" ["movies-list"] [] items]]].


(** [n] tags around [inner], each the only child of the one before. *)
Fixpoint nest (n : nat) (inner : node) : node :=
  match n with
  | O => inner
  | S k => Tag "span" [] [] [nest k inner]
  end.

(** An item with everything in place and, in its details, a block whose
    text lies under a thousand tags nested in one another. *)
Definition deep : node :=
  Tag "div" ["ml-item"] [("data-movie-id", "10")]
    [mask "/watch/10" "Movie Ten";
     tip [Tag "div" ["block"] [] [nest 1000 (txt "Country: India")]]].

(** An item whose genre block holds the label next to its links, one of
    which does not lead to a genre page. *)
Definition beside_genres : node :=
  Tag "div" ["ml-item"] [("data-movie-id", "5")]
    [mask "/watch/5" "Movie Five";
     tip [Tag "div" ["block"] []
            [txt "Genre: ";
             Tag "a" [] [("href", "/genre/action/")] [txt "Action"];
             txt ", ";
             Tag "a" [] [("href", "/tag/drama/")] [txt "Drama"];
             txt ", ";
             Tag "a" [] [("href", "/genre/action/page/2/")] [txt "Action"]]]].

(** A depth of calls that the default recursion limit of 1000 leaves to
    a program. *)
Definition depth : nat := 900.

(** A server that always answers 200 with an empty body. *)
Definition empty_pages : World.t :=
  World.Build (fun _ => Answer (Response 200 "")) [] [] [] [].

(** A server that fails twice and then answers. *)
Definition third_time : World.t :=
  World.Build (fun n => match n with
                        | 0%nat => Failure "timed out"
                        | 1%nat => Answer (Response 503 "busy")
                        | _ => Answer (Response 200 "<html></html>")
                        end) [] [] [] [].

End Sample.

(** ** [app.py] *)

Import Str Bs4.

Section Interpreter.

(** The number of nested calls that the recursion limit leaves to
    [tag.string] where the extractor looks for a labelled block. *)
Variable depth : nat.

(** Truth value of an optional string: [None] and the empty string are
    false. *)
Definition truthy_opt (o : option string) : bool :=
  match o with Some s => truthy s | None => false end.

(** [x or y] on optional strings. *)
Definition por (x y : option string) : option string :=
  if truthy_opt x then x else y.

Definition safe_text (el : option node) : option string :=
  match el with
  | None => None
  | Some el =>
      let txt := get_text " " el in
      if String.eqb txt "" then None else Some txt
  end.

Definition parse_duration (text : option string) : option string :=
  match text with
  | None => None
  | Some t => if truthy t then Some (strip t) else None
  end.

Definition parse_imdb (text : option string) : M frame (option Q) :=
  match text with
  | None => ret None
  | Some t =>
      if truthy t then
        match Re.search_decimal t with
        | Some g =>
            try_except (f <- lift (Py.float g) ;; ret (Some f))
                       (fun _ => ret None)
        | None => ret None
        end
      else ret None
  end.

(** The tests of the [find] and [find_all] calls of the extractor. *)
Definition is_container (n : node) : bool :=
  named "div" n && class_matches (String.eqb "movies-list") n.
Definition is_item (n : node) : bool :=
  named "div" n && class_matches (String.eqb "ml-item") n.
Definition is_mask (n : node) : bool :=
  named "a" n && class_matches (String.eqb "ml-mask") n.
Definition is_quality (n : node) : bool :=
  named "span" n && class_matches (String.eqb "mli-quality") n.
Definition is_hidden_tip (n : node) : bool :=
  attr_matches "id" (String.eqb "hidden_tip") n.
Definition is_desc (n : node) : bool :=
  named "p" n && class_matches (String.eqb "f-desc") n.
Definition is_year_link (n : node) : bool :=
  named "a" n && attr_matches "href" (contains "/release-year/") n.
Definition is_imdb (n : node) : bool :=
  named "div" n && class_matches (contains "jt-imdb") n.
Definition is_info (n : node) : bool :=
  named "div" n && class_matches (String.eqb "jt-info") n.
Definition is_genre_link (n : node) : bool :=
  named "a" n && attr_matches "href" (contains "/genre/") n.

(** [data_id]: the first non-empty of two attributes, else the empty
    string. *)
Definition data_id (it : node) : option string :=
  por (por (get "data-movie-id" it) (get "data-id" it)) (Some "").

(** [mid]: [data_id] read as an integer. *)
Definition item_id (it : node) : M frame (option Z) :=
  try_except
    (match data_id it with
     | Some d => if truthy d then (z <- lift (Py.int d) ;; ret (Some z))
                 else ret None
     | None => ret None
     end)
    (fun _ => ret None).

(** The statements under [a = it.find("a", class_="ml-mask")]; the value
    is [title]. *)
Definition item_mask (it : node) : M frame (option string) :=
  let a := find is_mask it in
  let title := None in
  match a with
  | Some a =>
      let h2 := find (named "h2") a in
      let title := match h2 with
                   | Some _ => safe_text h2
                   | None => title
                   end in
      set_watch_link (por (get "href" a) None) ;;
      let lang_el := find is_quality a in
      set_language (safe_text lang_el) ;;
      let img := find (named "img") a in
      set_thumbnail None ;;
      match img with
      | Some img =>
          set_thumbnail (por (por (get "data-original" img) (get "src" img)) None)
      | None => ret tt
      end ;;
      ret title
  | None => ret title
  end.

(** The details scope: the [hidden_tip] block, else the item. *)
Definition item_hidden (it : node) : node :=
  match find is_hidden_tip it with
  | Some hidden => hidden
  | None => it
  end.

Definition item_description (hidden : node) : option string :=
  let desc_el := find is_desc hidden in
  match desc_el with
  | Some d =>
      let inner_p := find (named "p") d in
      match inner_p with
      | Some _ => safe_text inner_p
      | None => safe_text desc_el
      end
  | None => None
  end.

(** [re.search(r"\d{4}", ytxt)]: a [TypeError] when [ytxt] is [None]. *)
Definition re_search_4digits (ytxt : option string) : result (option string) :=
  match ytxt with
  | Some t => Ok (Re.search_4digits t)
  | None => Raise TypeError
  end.

(** [m.group(0)]: an [AttributeError] when there was no match. *)
Definition group0 (m : option string) : result string :=
  match m with
  | Some g => Ok g
  | None => Raise AttributeError
  end.

(** [year] and [year_link] *)
Definition item_year (hidden : node) : M frame (option Z * option string) :=
  let year_tag := find is_year_link hidden in
  match year_tag with
  | Some y =>
      let ytxt := safe_text year_tag in
      year <- try_except
                (m <- lift (re_search_4digits ytxt) ;;
                 g <- lift (group0 m) ;;
                 z <- lift (Py.int g) ;;
                 ret (Some z))
                (fun _ => ret None) ;;
      ret (year, get "href" y)
  | None => ret (None, None)
  end.

Definition item_imdb (hidden : node) : M frame (option Q) :=
  let imdb_el := find is_imdb hidden in
  match imdb_el with
  | Some _ => parse_imdb (safe_text imdb_el)
  | None => ret None
  end.

(** The loop over [jt_infos], which stops at the first block that reads
    as a duration. *)
Fixpoint duration_loop (jt_infos : list node) (duration : option string)
  : option string :=
  match jt_infos with
  | [] => duration
  | ji :: rest =>
      let txt := safe_text (Some ji) in
      if truthy_opt txt &&
         match txt with Some t => Re.search_min t | None => false end
      then parse_duration txt
      else duration_loop rest duration
  end.

Definition item_duration (hidden : node) : option string :=
  duration_loop (find_all is_info hidden) None.

(** [country] and [country_link] *)
Definition item_country (hidden : node)
  : M frame (option string * option string) :=
  block_country <- lift (find_div depth (icontains "Country:") hidden) ;;
  match block_country with
  | Some b =>
      let a_country := find (named "a") b in
      match a_country with
      | Some a => ret (safe_text a_country, get "href" a)
      | None => ret (None, None)
      end
  | None => ret (None, None)
  end.

(** The loop over the links of the block labelled [Genre:]. *)
Fixpoint genre_block_loop (links : list node)
  (genres : list string) (genre_links : list (option string))
  : list string * list (option string) :=
  match links with
  | [] => (genres, genre_links)
  | a_gen :: rest =>
      match safe_text (Some a_gen) with
      | Some g =>
          if truthy g
          then genre_block_loop rest (genres ++ [g])
                                (genre_links ++ [get "href" a_gen])
          else genre_block_loop rest genres genre_links
      | None => genre_block_loop rest genres genre_links
      end
  end.

(** [g in genres] *)
Definition py_in (g : string) (genres : list string) : bool :=
  existsb (String.eqb g) genres.

(** The loop over the genre links of the whole details scope. *)
Fixpoint genre_fallback_loop (links : list node)
  (genres : list string) (genre_links : list (option string))
  : list string * list (option string) :=
  match links with
  | [] => (genres, genre_links)
  | a_gen :: rest =>
      match safe_text (Some a_gen) with
      | Some g =>
          if truthy g && negb (py_in g genres)
          then genre_fallback_loop rest (genres ++ [g])
                                   (genre_links ++ [get "href" a_gen])
          else genre_fallback_loop rest genres genre_links
      | None => genre_fallback_loop rest genres genre_links
      end
  end.

(** [genres] and [genre_links] *)
Definition item_genres (hidden : node)
  : M frame (list string * list (option string)) :=
  genre_div <- lift (find_div depth (icontains "Genre:") hidden) ;;
  match genre_div with
  | Some d => ret (genre_block_loop (find_all (named "a") d) [] [])
  | None => ret (genre_fallback_loop (find_all is_genre_link hidden) [] [])
  end.

(** The body of the [try] of one item, up to and including
    [movies.append(movie)].  The two searches for a labelled block are
    the statements that compute [tag.string]; the dictionary display
    reads [language], [thumbnail] and [watch_link] in this order. *)
Definition item_try (it : node) : M frame unit :=
  mid <- item_id it ;;
  title <- item_mask it ;;
  let hidden := item_hidden it in
  let description := item_description hidden in
  '(year, year_link) <- item_year hidden ;;
  imdb_rating <- item_imdb hidden ;;
  let duration := item_duration hidden in
  '(country, country_link) <- item_country hidden ;;
  '(genres, genre_links) <- item_genres hidden ;;
  language <- read "language" language ;;
  thumbnail <- read "thumbnail" thumbnail ;;
  watch_link <- read "watch_link" watch_link ;;
  let movie :=
    Movie.Build mid title year language imdb_rating duration thumbnail
                description country genres
                (Links.Build watch_link year_link country_link genre_links) in
  movies_append movie.

(** One turn of the loop: the [try] and its [except Exception]. *)
Definition item_step (it : node) : M frame unit :=
  try_except (item_try it) (fun e => print (ErrorParsingItem e)).

(** The body of [extract_movies_from_soup], run in its frame. *)
Definition extract_body (soup : node) : M frame (list Movie.t) :=
  let container := find is_container soup in
  match container with
  | None => fun s => (Ok (movies s), s)
  | Some c =>
      let items := find_all is_item c in
      for_each items item_step ;;
      fun s => (Ok (movies s), s)
  end.

(** A call of [extract_movies_from_soup]: the frame starts with
    [movies = []] and the other variables unbound; the value is the
    result of the call and what was printed. *)
Definition extract_movies_from_soup (soup : node) (out : list out_line)
  : result (list Movie.t) * list out_line :=
  let '(r, s) := extract_body soup (Frame None None None [] out) in
  (r, stdout s).


(** [session.get(url, timeout=20)] *)
Definition session_get (url : string) : M World.t response :=
  fun w =>
    let w' := World.Build (World.net w) (World.requests w ++ [url])
                          (World.slept w) (World.stdout w) (World.files w) in
    match World.net w (length (World.requests w)) with
    | Answer r => (Ok r, w')
    | Failure msg => (Raise (RequestException msg), w')
    end.

(** [time.sleep(d)]: an [OverflowError] when the delay is beyond what
    the clock counts, whatever its sign, and then a [ValueError] when it
    is negative. *)
Definition sleep (d : Q) : M World.t unit :=
  fun w =>
    if negb (Qle_bool clock_min d && Qle_bool d clock_max)
    then (Raise OverflowError, w)
    else if Qle_bool 0 d
    then (Ok tt, World.Build (World.net w) (World.requests w)
                             (World.slept w ++ [d]) (World.stdout w)
                             (World.files w))
    else (Raise ValueError, w).

(** [print(...)] at the level of the process. *)
Definition echo (l : out_line) : M World.t unit :=
  fun w => (Ok tt, World.Build (World.net w) (World.requests w)
                               (World.slept w) (World.stdout w ++ [l])
                               (World.files w)).

(** [with open(file, "w") as f: json.dump(doc, f)] *)
Definition write_json (file : string) (doc : json) : M World.t unit :=
  fun w => (Ok tt, World.Build (World.net w) (World.requests w)
                               (World.slept w) (World.stdout w)
                               ((file, doc) :: World.files w)).

(** [range(n)] *)
Definition range (n : Z) : list Z := map Z.of_nat (seq 0 (Z.to_nat n)).

Definition URL : string := "https://watchofree.beer/director/netflix/".
Definition OUTPUT_FILE : string := "voot.json".

(** The loop of [fetch_html] over the attempts that are left.  The value
    of the [try] statement is [Some text] when it returns [r.text] and
    [None] when control goes on to [time.sleep]. *)
Fixpoint fetch_loop (url : string) (backoff : Q) (attempts : list Z)
  : M World.t (option string) :=
  match attempts with
  | [] => ret None
  | attempt :: rest =>
      returned <-
        try_except
          (r <- session_get url ;;
           if (status_code r =? 200)%Z then ret (Some (text r))
           else echo (FetchAttemptStatus (attempt + 1) (status_code r)) ;;
                ret None)
          (fun e => echo (FetchAttemptError (attempt + 1) e) ;; ret None) ;;
      match returned with
      | Some t => ret (Some t)
      | None =>
          sleep (Qmult backoff (inject_Z (attempt + 1))) ;;
          fetch_loop url backoff rest
      end
  end.

Definition fetch_html (url : string) (tries : Z) (backoff : Q)
  : M World.t (option string) :=
  fetch_loop url backoff (range tries).

Definition opt_json {A} (f : A -> json) (o : option A) : json :=
  match o with Some a => f a | None => JNull end.

(** The dictionary of a movie as a JSON document. *)
Definition movie_json (m : Movie.t) : json :=
  JDict [("id", opt_json JInt (Movie.id m));
         ("title", opt_json JStr (Movie.title m));
         ("year", opt_json JInt (Movie.year m));
         ("language", opt_json JStr (Movie.language m));
         ("imdb_rating", opt_json JFloat (Movie.imdb_rating m));
         ("duration", opt_json JStr (Movie.duration m));
         ("thumbnail", opt_json JStr (Movie.thumbnail m));
         ("description", opt_json JStr (Movie.description m));
         ("country", opt_json JStr (Movie.country m));
         ("genres", JList (map JStr (Movie.genres m)));
         ("links",
          JDict [("watch", opt_json JStr (Links.watch (Movie.links m)));
                 ("year", opt_json JStr (Links.year (Movie.links m)));
                 ("country", opt_json JStr (Links.country (Movie.links m)));
                 ("genres",
                  JList (map (opt_json JStr) (Links.genres (Movie.links m))))])].

(** The call [extract_movies_from_soup(soup)] inside the process. *)
Definition call_extract (soup : node) : M World.t (list Movie.t) :=
  fun w =>
    let '(r, out) := extract_movies_from_soup soup (World.stdout w) in
    (r, World.Build (World.net w) (World.requests w) (World.slept w) out
                    (World.files w)).

Section Main.

(** [BeautifulSoup(html, "lxml")]: the parser is not part of the
    program. *)
Variable parse : string -> node.

Definition main : M World.t unit :=
  html <- fetch_html URL 3 1%Q ;;
  if negb (truthy_opt html) then echo (FailedToFetch URL)
  else
    let soup := parse (match html with Some h => h | None => "" end) in
    movies <- call_extract soup ;;
    let out := JDict [("movies", JList (map movie_json movies))] in
    write_json OUTPUT_FILE out ;;
    echo (WroteMovies (length movies) OUTPUT_FILE).

End Main.

(** * Notions used in the statements *)

(** The frame at the start of a call. *)
Definition frame0 : frame := Frame None None None [] [].

(** The value with which a statement ends in the starting frame. *)
Definition value_of {A} (m : M frame A) (default : A) : A :=
  match fst (m frame0) with Ok v => v | Raise _ => default end.

Definition id_of (it : node) : option Z := value_of (item_id it) None.
Definition title_of (it : node) : option string := value_of (item_mask it) None.
Definition year_of (hidden : node) : option Z * option string :=
  value_of (item_year hidden) (None, None).
Definition imdb_of (hidden : node) : option Q :=
  value_of (item_imdb hidden) None.

(** The values that the statements under the mask [a] assign. *)
Definition mask_watch (a : node) : option string := por (get "href" a) None.
Definition mask_language (a : node) : option string :=
  safe_text (find is_quality a).
Definition mask_thumbnail (a : node) : option string :=
  match find (named "img") a with
  | Some img => por (por (get "data-original" img) (get "src" img)) None
  | None => None
  end.

(** The test of [find("div", string=...)] when [tag.string] returns:
    a [div] whose [string] holds the label in any letter case. *)
Definition is_country_block (n : node) : bool :=
  named "div" n && string_matches (icontains "Country:") n.
Definition is_genre_block (n : node) : bool :=
  named "div" n && string_matches (icontains "Genre:") n.

(** The country and its link when the search for the block returns. *)
Definition country_of (hidden : node) : option string * option string :=
  match find is_country_block hidden with
  | Some b =>
      match find (named "a") b with
      | Some a => (safe_text (Some a), get "href" a)
      | None => (None, None)
      end
  | None => (None, None)
  end.

(** The genres and their links when the search for the block returns. *)
Definition genres_of (hidden : node) : list string * list (option string) :=
  match find is_genre_block hidden with
  | Some d => genre_block_loop (find_all (named "a") d) [] []
  | None => genre_fallback_loop (find_all is_genre_link hidden) [] []
  end.

(** Whether one of the two searches for a labelled block in the details
    of the item ends with [RecursionError]. *)
Definition overflows (it : node) : bool :=
  match find_div depth (icontains "Country:") (item_hidden it),
        find_div depth (icontains "Genre:") (item_hidden it) with
  | Ok _, Ok _ => false
  | _, _ => true
  end.

(** The dictionary of an item, given the values of the three variables
    that the mask assigns. *)
Definition movie_of (it : node) (language thumbnail watch_link : option string)
  : Movie.t :=
  let hidden := item_hidden it in
  Movie.Build (id_of it) (title_of it) (fst (year_of hidden)) language
              (imdb_of hidden) (item_duration hidden) thumbnail
              (item_description hidden) (fst (country_of hidden))
              (fst (genres_of hidden))
              (Links.Build watch_link (snd (year_of hidden))
                           (snd (country_of hidden))
                           (snd (genres_of hidden))).

(** The frame after [movies.append(m)] with the three variables bound. *)
Definition appended (s : frame) (l t w : option string) (m : Movie.t) : frame :=
  Frame (Some w) (Some l) (Some t) (movies s ++ [m]) (stdout s).

(** A record of the item [it]: its dictionary, whatever the three
    variables of the mask held. *)
Definition record_of (r : Movie.t) (it : node) : Prop :=
  exists l t w, r = movie_of it l t w.

(** ** The loop over the items *)

(** Whether the [try] of [it] ends with an exception in the frame [s]. *)
Definition raises (it : node) (s : frame) : bool :=
  match fst (item_try it s) with Raise _ => true | Ok _ => false end.

(** The frame after the loop has gone over [items]. *)
Definition frame_after (items : list node) (s : frame) : frame :=
  snd (for_each items item_step s).

(** For each item in turn, whether its [try] raises when the loop
    reaches it. *)
Fixpoint raising (items : list node) (s : frame) : list bool :=
  match items with
  | [] => []
  | it :: rest => raises it s :: raising rest (frame_after [it] s)
  end.

(** The items whose flag is not set. *)
Fixpoint kept (items : list node) (flags : list bool) : list node :=
  match items, flags with
  | it :: items', f :: flags' =>
      if f then kept items' flags' else it :: kept items' flags'
  | _, _ => []
  end.

Definition start (out : list out_line) : frame := Frame None None None [] out.

(** ** The page fetcher *)

(** The page text that an attempt brings, if it is a success. *)
Definition page_of (o : http_outcome) : option string :=
  match o with
  | Answer r => if (status_code r =? 200)%Z then Some (text r) else None
  | Failure _ => None
  end.

(** The line that a failed attempt prints. *)
Definition failure_line (attempt : Z) (o : http_outcome) : out_line :=
  match o with
  | Answer r => FetchAttemptStatus (attempt + 1) (status_code r)
  | Failure msg => FetchAttemptError (attempt + 1) (RequestException msg)
  end.

(** The delays after the failed attempts [a], [a+1], ..., counted from
    zero as the loop variable is: attempt [i] waits [backoff * (i+1)]. *)
Definition delays (backoff : Q) (a n : nat) : list Q :=
  map (fun i => Qmult backoff (inject_Z (Z.of_nat i + 1))) (seq a n).

(** The claim of the specification, word for word, for what concerns
    exceptions: the fetch ends normally. *)
Definition fetch_ends_normally (url : string) (tries : Z) (backoff : Q)
  (w : World.t) : Prop :=
  exists r w', fetch_html url tries backoff w = (Ok r, w').

(** ** The document tree *)

Section NodeInduction.

Variable P : node -> Prop.
Hypothesis P_string : forall s, P (NavigableString s).
Hypothesis P_tag :
  forall nm cl at_ cs, Forall P cs -> P (Tag nm cl at_ cs).

Fixpoint node_induction (n : node) : P n :=
  match n with
  | NavigableString s => P_string s
  | Tag nm cl at_ cs =>
      P_tag nm cl at_
        ((fix all (l : list node) : Forall P l :=
            match l with
            | [] => Forall_nil P
            | c :: r => Forall_cons c (node_induction c) (all r)
            end) cs)
  end.

End NodeInduction.

(** ** Genres *)

(** The text and the destination of each link that has a text, in the
    order of the links. *)
Definition link_pairs (links : list node) : list (string * option string) :=
  flat_map (fun a => match safe_text (Some a) with
                     | Some g => if truthy g then [(g, get "href" a)] else []
                     | None => []
                     end) links.

(** The first pair of each name, in the order in which the names first
    appear. *)
Fixpoint first_pairs (ps : list (string * option string))
  : list (string * option string) :=
  match ps with
  | [] => []
  | p :: rest =>
      p :: filter (fun q => negb (String.eqb (fst p) (fst q))) (first_pairs rest)
  end.

(** The pairs whose name is not among [seen]. *)
Definition unseen (seen : list string) (ps : list (string * option string))
  : list (string * option string) :=
  filter (fun q => negb (py_in (fst q) seen)) ps.

(** The genre [g] and the URL [u] were taken from the link [a]. *)
Definition taken_from (a : node) (g : string) (u : option string) : Prop :=
  name a = Some "a" /\ safe_text (Some a) = Some g /\ get "href" a = u.

(** The two genre lists of [r] are parallel: they have the same length
    and, at each index, the label and the URL were taken from one and the
    same link of [scope]. *)
Definition genres_parallel (scope : node) (r : Movie.t) : Prop :=
  length (Movie.genres r) = length (Links.genres (Movie.links r)) /\
  forall i g u,
    nth_error (Movie.genres r) i = Some g ->
    nth_error (Links.genres (Movie.links r)) i = Some u ->
    exists a, In a (descendants scope) /\ taken_from a g u.

(** The own text of an element, as opposed to the text of the elements
    inside it: the pieces of text among its children, one after the
    other. *)
Definition own_text (n : node) : string :=
  match n with
  | Tag _ _ _ cs =>
      String.concat ""
        (flat_map (fun c => match c with
                            | NavigableString t => [t]
                            | Tag _ _ _ _ => []
                            end) cs)
  | NavigableString _ => ""
  end.

(** The claim of the specification about the run, word for word: the
    run writes a file exactly when the fetch returns a page text. *)
Definition writes_iff_fetched (parse : string -> node) (w : World.t) : Prop :=
  World.files (snd (main parse w)) <> World.files w <->
  exists t, fst (fetch_html URL 3 1%Q w) = Ok (Some t).

(** * Further notions *)

(** What the last mask assigned, if there was one. *)
Definition bound (s : frame) : option (option string * option string * option string) :=
  match language s, thumbnail s, watch_link s with
  | Some l, Some t, Some w => Some (l, t, w)
  | _, _, _ => None
  end.

(** The records of a list of items, given what the last mask before
    them assigned ([None] when there was none): an item with a mask gets
    the record of its own markup; an item with no mask gets the language,
    thumbnail and watch link of the last mask before it, and no record
    when there is none; an item whose searches overflow gets no record,
    and its mask counts all the same for the items after it. *)
Fixpoint records (last : option (option string * option string * option string))
  (items : list node) : list Movie.t :=
  match items with
  | [] => []
  | it :: rest =>
      match find is_mask it with
      | Some a =>
          let l := mask_language a in
          let t := mask_thumbnail a in
          let w := mask_watch a in
          if overflows it then records (Some (l, t, w)) rest
          else movie_of it l t w :: records (Some (l, t, w)) rest
      | None =>
          match last with
          | Some (l, t, w) =>
              if overflows it then records last rest
              else movie_of it l t w :: records last rest
          | None => records None rest
          end
      end
  end.

(** The lines printed for a list of items: one for each item that gets
    no record, with the exception that ended its [try]. *)
Fixpoint error_lines (last : option (option string * option string * option string))
  (items : list node) : list out_line :=
  match items with
  | [] => []
  | it :: rest =>
      match find is_mask it with
      | Some a =>
          let v := (mask_language a, mask_thumbnail a, mask_watch a) in
          if overflows it
          then ErrorParsingItem RecursionError :: error_lines (Some v) rest
          else error_lines (Some v) rest
      | None =>
          if overflows it
          then ErrorParsingItem RecursionError :: error_lines last rest
          else match last with
               | Some _ => error_lines last rest
               | None =>
                   ErrorParsingItem (UnboundLocalError "language")
                     :: error_lines None rest
               end
      end
  end.

(** The items with no mask at the head of a list. *)
Fixpoint leading_maskless (items : list node) : list node :=
  match items with
  | [] => []
  | it :: rest =>
      match find is_mask it with
      | Some _ => []
      | None => it :: leading_maskless rest
      end
  end.

(** The record of an item with a mask. *)
Definition own_record (it : node) : Movie.t :=
  match find is_mask it with
  | Some a => movie_of it (mask_language a) (mask_thumbnail a) (mask_watch a)
  | None => movie_of it None None None
  end.

(** The three variables are bound together or not at all. *)
Definition coherent (s : frame) : Prop :=
  (language s = None /\ thumbnail s = None /\ watch_link s = None) \/
  (exists l t w, language s = Some l /\ thumbnail s = Some t /\ watch_link s = Some w).

(** The string does not start with white space. *)
Definition starts_clean (s : string) : bool :=
  match s with
  | EmptyString => true
  | String c _ => negb (is_space c)
  end.

(** The string does not end with white space. *)
Fixpoint ends_clean (s : string) : bool :=
  match s with
  | EmptyString => true
  | String c EmptyString => negb (is_space c)
  | String _ r => ends_clean r
  end.

(** A string that is not empty and has no white space at its ends. *)
Definition trimmed (s : string) : Prop :=
  s <> "" /\ starts_clean s = true /\ ends_clean s = true.

(** The block of the duration: its text reads as a number of minutes. *)
Definition reads_as_duration (ji : node) : bool :=
  match safe_text (Some ji) with
  | Some t => Re.search_min t
  | None => false
  end.


(** A field that is [None] or a string that is not empty. *)
Definition not_empty (o : option string) : Prop := o <> Some "".

(** No text of the record is the empty string. *)
Definition texts_not_empty (r : Movie.t) : Prop :=
  not_empty (Movie.title r) /\
  not_empty (Movie.language r) /\
  not_empty (Movie.duration r) /\
  not_empty (Movie.thumbnail r) /\
  not_empty (Movie.description r) /\
  not_empty (Movie.country r) /\
  not_empty (Links.watch (Movie.links r)) /\
  not_empty (Links.year (Movie.links r)) /\
  Forall (fun g => g <> "") (Movie.genres r).

(** Every character of the string is a digit. *)
Fixpoint all_digits (s : string) : bool :=
  match s with
  | EmptyString => true
  | String c r => is_digit c && all_digits r
  end.

(** Some character of the string is a digit. *)
Fixpoint has_digit (s : string) : bool :=
  match s with
  | EmptyString => false
  | String c r => is_digit c || has_digit r
  end.

(** The string does not start with a digit. *)
Definition no_digit_ahead (s : string) : bool :=
  match s with
  | EmptyString => true
  | String c _ => negb (is_digit c)
  end.

(** The number of attempts that fail before the first that succeeds,
    among the [n] attempts that start with request number [base]; [n]
    when they all fail. *)
Fixpoint failed_attempts (net : nat -> http_outcome) (base n : nat) : nat :=
  match n with
  | O => O
  | S n' =>
      match page_of (net base) with
      | Some _ => O
      | None => S (failed_attempts net (S base) n')
      end
  end.

(** The world after a fetch of [n] attempts at most, [f] of which
    failed, the loop variable starting at [a]. *)
Definition after_fetch (url : string) (backoff : Q) (a n f : nat) (w : World.t)
  : World.t :=
  World.Build
    (World.net w)
    (World.requests w ++ repeat url (if (f <? n)%nat then S f else f))
    (World.slept w ++ delays backoff a f)
    (World.stdout w ++
     map (fun j => failure_line (Z.of_nat (a + j))
                     (World.net w (length (World.requests w) + j)))
         (seq 0 f))
    (World.files w).

(** The record [r] of the item [it] has its language, thumbnail and
    watch link from the mask [a], and no title if [it] has no mask of
    its own. *)
Definition masked_by (a : node) (r : Movie.t) (it : node) : Prop :=
  r = movie_of it (mask_language a) (mask_thumbnail a) (mask_watch a) /\
  (find is_mask it = None -> Movie.title r = None).


(** The frame after the statements under the mask of [it]. *)
Definition after_mask (it : node) (s : frame) : frame :=
  match find is_mask it with
  | Some a =>
      Frame (Some (mask_watch a)) (Some (mask_language a))
            (Some (mask_thumbnail a)) (movies s) (stdout s)
  | None => s
  end.

(** What a [try] can end with: the overflow of a search, or the reading
    of a variable that was never assigned. *)
Definition try_error (e : exn) : Prop :=
  e = RecursionError \/ exists var, e = UnboundLocalError var.

(** * Proofs *)

(** ** The statements of one item *)

Ltac run_monad :=
  unfold try_except, bind, lift, ret, raise, read, set_watch_link,
    set_language, set_thumbnail, movies_append, print in *.

Lemma item_id_ok (it : node) (s : frame) :
  exists v, item_id it s = (Ok v, s).
Proof.
  unfold item_id. run_monad.
  destruct (data_id it) as [d|]; [|eauto].
  destruct (truthy d); [|eauto].
  destruct (Py.int d); eauto.
Qed.

Lemma item_year_ok (hidden : node) (s : frame) :
  exists y l, item_year hidden s = (Ok (y, l), s).
Proof.
  unfold item_year. run_monad.
  destruct (find is_year_link hidden) as [y|]; [|eauto].
  destruct (re_search_4digits _) as [m|]; [|eauto].
  destruct (group0 m) as [g|]; [|eauto].
  destruct (Py.int g); eauto.
Qed.

Lemma parse_imdb_ok (t : option string) (s : frame) :
  exists r, parse_imdb t s = (Ok r, s).
Proof.
  unfold parse_imdb. run_monad.
  destruct t as [t|]; [|eauto].
  destruct (truthy t); [|eauto].
  destruct (Re.search_decimal t) as [g|]; [|eauto].
  destruct (Py.float g); eauto.
Qed.

Lemma item_imdb_ok (hidden : node) (s : frame) :
  exists r, item_imdb hidden s = (Ok r, s).
Proof.
  unfold item_imdb.
  destruct (find is_imdb hidden); [apply parse_imdb_ok|].
  unfold ret; eauto.
Qed.

Lemma item_id_eq (it : node) (s : frame) : item_id it s = (Ok (id_of it), s).
Proof.
  unfold id_of, value_of.
  destruct (item_id_ok it frame0) as [v Hv]. rewrite Hv. simpl.
  revert Hv. unfold item_id. run_monad.
  destruct (data_id it) as [d|]; [|congruence].
  destruct (truthy d); [|congruence].
  destruct (Py.int d); congruence.
Qed.

Lemma item_year_eq (hidden : node) (s : frame) :
  item_year hidden s = (Ok (year_of hidden), s).
Proof.
  unfold year_of, value_of.
  destruct (item_year_ok hidden frame0) as (y & l & Hv). rewrite Hv. simpl.
  revert Hv. unfold item_year. run_monad.
  destruct (find is_year_link hidden); [|congruence].
  destruct (re_search_4digits _) as [m|]; [|congruence].
  destruct (group0 m) as [g|]; [|congruence].
  destruct (Py.int g); congruence.
Qed.

Lemma item_imdb_eq (hidden : node) (s : frame) :
  item_imdb hidden s = (Ok (imdb_of hidden), s).
Proof.
  unfold imdb_of, value_of.
  destruct (item_imdb_ok hidden frame0) as (r & Hv). rewrite Hv. simpl.
  revert Hv. unfold item_imdb, parse_imdb. run_monad.
  destruct (find is_imdb hidden); [|congruence].
  destruct (safe_text _) as [t|]; [|congruence].
  destruct (truthy t); [|congruence].
  destruct (Re.search_decimal t) as [g|]; [|congruence].
  destruct (Py.float g); congruence.
Qed.

(** [tag.string] returns what [string_] says, or does not return. *)
Lemma string_bounded_cases (d : nat) (n : node) :
  string_bounded d n = Ok (string_ n) \/
  string_bounded d n = Raise RecursionError.
Proof.
  revert n. induction d as [|d IH]; intros [t|nm cl at_ cs]; cbn; auto.
  destruct cs as [|c [|c' cs]]; auto.
Qed.

(** It returns when the chain of only children is not longer than the
    depth, and only then. *)
Lemma string_bounded_chain (d : nat) (n : node) :
  string_bounded d n =
  if (chain n <=? d)%nat then Ok (string_ n) else Raise RecursionError.
Proof.
  revert n. induction d as [|d IH]; intros [t|nm cl at_ cs]; cbn [string_bounded].
  - reflexivity.
  - destruct cs as [|c [|c' cs]]; reflexivity.
  - reflexivity.
  - destruct cs as [|c [|c' cs]]; try reflexivity.
    rewrite IH. reflexivity.
Qed.

Lemma find_div_in_cases (d : nat) (p : string -> bool) (l : list node) :
  find_div_in d p l =
    Ok (List.find (fun x => is_tag x && (named "div" x && string_matches p x)) l) \/
  find_div_in d p l = Raise RecursionError.
Proof.
  induction l as [|x l IH]; [now left|].
  cbn [find_div_in List.find].
  destruct x as [t|nm cl at_ cs]; [exact IH|].
  cbn [is_tag andb]. destruct (named "div" (Tag nm cl at_ cs)); [|exact IH].
  cbn [andb]. unfold string_matches.
  destruct (string_bounded_cases d (Tag nm cl at_ cs)) as [-> | ->]; [|now right].
  destruct (string_ (Tag nm cl at_ cs)) as [t|]; [|exact IH].
  destruct (p t); [now left|exact IH].
Qed.

(** The search for a labelled block finds what [find] finds with the
    test on [string_], or ends with [RecursionError]. *)
Lemma find_div_cases (p : string -> bool) (n : node) :
  find_div depth p n =
    Ok (find (fun x => named "div" x && string_matches p x) n) \/
  find_div depth p n = Raise RecursionError.
Proof. apply find_div_in_cases. Qed.

Lemma overflows_cases (it : node) :
  (overflows it = false /\
   find_div depth (icontains "Country:") (item_hidden it) =
     Ok (find is_country_block (item_hidden it)) /\
   find_div depth (icontains "Genre:") (item_hidden it) =
     Ok (find is_genre_block (item_hidden it))) \/
  (overflows it = true /\
   (find_div depth (icontains "Country:") (item_hidden it) = Raise RecursionError \/
    find_div depth (icontains "Country:") (item_hidden it) =
      Ok (find is_country_block (item_hidden it)) /\
    find_div depth (icontains "Genre:") (item_hidden it) = Raise RecursionError)).
Proof.
  unfold overflows.
  destruct (find_div_cases (icontains "Country:") (item_hidden it)) as [Hc|Hc];
    destruct (find_div_cases (icontains "Genre:") (item_hidden it)) as [Hg|Hg];
    rewrite Hc, Hg; auto.
Qed.

Lemma find_div_in_shallow (p : string -> bool) (l : list node) :
  (forall d, In d l -> named "div" d = true -> (chain d <= depth)%nat) ->
  find_div_in depth p l <> Raise RecursionError.
Proof.
  induction l as [|x l IH]; intros Hl; [discriminate|].
  cbn [find_div_in].
  assert (Hrest : find_div_in depth p l <> Raise RecursionError).
  { apply IH. intros d Hd. apply Hl. now right. }
  destruct (is_tag x && named "div" x) eqn:Hx; [|exact Hrest].
  apply andb_true_iff in Hx. destruct Hx as [_ Hx].
  rewrite string_bounded_chain.
  assert (Hc : (chain x <=? depth)%nat = true)
    by (apply Nat.leb_le, Hl; [now left|exact Hx]).
  rewrite Hc. destruct (string_ x) as [t|]; [|exact Hrest].
  destruct (p t); [discriminate|exact Hrest].
Qed.

(** No search overflows in an item whose details hold no [div] with a
    chain of only children longer than the depth. *)
Lemma shallow_no_overflow (it : node) :
  (forall d, In d (descendants (item_hidden it)) -> named "div" d = true ->
             (chain d <= depth)%nat) ->
  overflows it = false.
Proof.
  intros Hd.
  destruct (overflows_cases it) as [[H _]|(_ & [H|[_ H]])]; [exact H| |].
  - destruct (@find_div_in_shallow (icontains "Country:") _ Hd). exact H.
  - destruct (@find_div_in_shallow (icontains "Genre:") _ Hd). exact H.
Qed.

Lemma item_country_eq (hidden : node) (s : frame) :
  item_country hidden s =
  match find_div depth (icontains "Country:") hidden with
  | Ok _ => (Ok (country_of hidden), s)
  | Raise e => (Raise e, s)
  end.
Proof.
  unfold item_country, country_of, bind, lift, ret.
  destruct (find_div_cases (icontains "Country:") hidden) as [-> | ->];
    [|reflexivity].
  fold is_country_block. destruct (find is_country_block hidden) as [b|];
    [|reflexivity].
  destruct (find (named "a") b); reflexivity.
Qed.

Lemma item_genres_run (hidden : node) (s : frame) :
  item_genres hidden s =
  match find_div depth (icontains "Genre:") hidden with
  | Ok _ => (Ok (genres_of hidden), s)
  | Raise e => (Raise e, s)
  end.
Proof.
  unfold item_genres, genres_of, bind, lift, ret.
  destruct (find_div_cases (icontains "Genre:") hidden) as [-> | ->];
    [|reflexivity].
  fold is_genre_block. destruct (find is_genre_block hidden); reflexivity.
Qed.

Lemma item_mask_eq (it : node) (s : frame) :
  item_mask it s =
  match find is_mask it with
  | Some a =>
      (Ok (title_of it),
       Frame (Some (mask_watch a)) (Some (mask_language a))
             (Some (mask_thumbnail a)) (movies s) (stdout s))
  | None => (Ok None, s)
  end.
Proof.
  unfold title_of, value_of, item_mask, mask_thumbnail. run_monad.
  destruct (find is_mask it) as [a|]; [|reflexivity]. simpl.
  destruct (find (named "img") a); reflexivity.
Qed.

Lemma item_mask_run (it : node) (s : frame) :
  item_mask it s = (Ok (title_of it), after_mask it s).
Proof.
  rewrite item_mask_eq. unfold after_mask.
  destruct (find is_mask it) as [a|] eqn:Hmask; [reflexivity|].
  unfold title_of, value_of, item_mask. rewrite Hmask. reflexivity.
Qed.

(** The [try] of an item up to the dictionary display. *)
Lemma item_try_fields (it : node) (s : frame) :
  item_try it s =
  if overflows it then (Raise RecursionError, after_mask it s)
  else
    (language <- read "language" language ;;
     thumbnail <- read "thumbnail" thumbnail ;;
     watch_link <- read "watch_link" watch_link ;;
     movies_append (movie_of it language thumbnail watch_link))
      (after_mask it s).
Proof.
  unfold item_try, bind at 1. rewrite item_id_eq.
  unfold bind at 1. rewrite item_mask_run.
  unfold bind at 1. rewrite item_year_eq.
  unfold movie_of. destruct (year_of _) as [y yl].
  unfold bind at 1. rewrite item_imdb_eq.
  unfold bind at 1. rewrite item_country_eq.
  destruct (overflows_cases it) as [(-> & Hc & Hg)|(-> & [Hc|[Hc Hg]])];
    rewrite Hc; [|reflexivity|].
  - destruct (country_of _) as [c cl].
    unfold bind at 1. rewrite item_genres_run, Hg.
    destruct (genres_of _) as [g gl]. reflexivity.
  - destruct (country_of _) as [c cl].
    unfold bind at 1. rewrite item_genres_run, Hg. reflexivity.
Qed.

Lemma item_try_eq (it : node) (s : frame) :
  item_try it s =
  if overflows it then (Raise RecursionError, after_mask it s)
  else
    match find is_mask it with
    | Some a =>
        let l := mask_language a in
        let t := mask_thumbnail a in
        let w := mask_watch a in
        (Ok tt, appended s l t w (movie_of it l t w))
    | None =>
        match language s, thumbnail s, watch_link s with
        | None, _, _ => (Raise (UnboundLocalError "language"), s)
        | Some _, None, _ => (Raise (UnboundLocalError "thumbnail"), s)
        | Some _, Some _, None => (Raise (UnboundLocalError "watch_link"), s)
        | Some l, Some t, Some w => (Ok tt, appended s l t w (movie_of it l t w))
        end
    end.
Proof.
  rewrite item_try_fields. destruct (overflows it); [reflexivity|].
  unfold after_mask. destruct (find is_mask it) as [a|]; [reflexivity|].
  run_monad. unfold appended. destruct s as [w l t ms out]. simpl.
  destruct l as [l|]; simpl; [|reflexivity].
  destruct t as [t|]; simpl; [|reflexivity].
  destruct w as [w|]; reflexivity.
Qed.

Lemma item_try_record (it : node) (s s' : frame) :
  item_try it s = (Ok tt, s') ->
  exists l t w, s' = appended s l t w (movie_of it l t w).
Proof.
  rewrite item_try_eq. destruct (overflows it); [discriminate|].
  destruct (find is_mask it) as [a|].
  - intros H. inversion H. eauto.
  - destruct (language s) as [l|]; [|discriminate].
    destruct (thumbnail s) as [t|]; [|discriminate].
    destruct (watch_link s) as [w|]; [|discriminate].
    intros H. inversion H. eauto.
Qed.

(** A [try] that ends well did not overflow. *)
Lemma item_try_no_overflow (it : node) (s s' : frame) :
  item_try it s = (Ok tt, s') -> overflows it = false.
Proof.
  rewrite item_try_eq. destruct (overflows it); [discriminate|reflexivity].
Qed.

Lemma after_mask_keeps (it : node) (s : frame) :
  movies (after_mask it s) = movies s /\ stdout (after_mask it s) = stdout s.
Proof. unfold after_mask. destruct (find is_mask it); auto. Qed.

Lemma item_try_raise (it : node) (s s' : frame) (e : exn) :
  item_try it s = (Raise e, s') ->
  s' = after_mask it s /\ try_error e.
Proof.
  rewrite item_try_eq. unfold try_error, after_mask.
  destruct (overflows it).
  { intros H; inversion H; auto. }
  destruct (find is_mask it) as [a|]; [discriminate|].
  destruct (language s) as [l|].
  2:{ intros H; inversion H; eauto. }
  destruct (thumbnail s) as [t|].
  2:{ intros H; inversion H; eauto. }
  destruct (watch_link s) as [w|].
  2:{ intros H; inversion H; eauto. }
  discriminate.
Qed.

(** An item with a mask whose searches return gets the record of its
    own markup, whatever the frame. *)
Lemma item_try_masked (it a : node) (s : frame) :
  overflows it = false -> find is_mask it = Some a ->
  item_try it s =
  (Ok tt,
   appended s (mask_language a) (mask_thumbnail a) (mask_watch a)
     (movie_of it (mask_language a) (mask_thumbnail a) (mask_watch a))).
Proof. intros Ho Ha. rewrite item_try_eq, Ho, Ha. reflexivity. Qed.

(** An item with no mask raises as long as no item before it had one. *)
Lemma item_try_maskless_unbound (it : node) (s : frame) :
  overflows it = false -> find is_mask it = None -> language s = None ->
  item_try it s = (Raise (UnboundLocalError "language"), s).
Proof. intros Ho Ha Hl. rewrite item_try_eq, Ho, Ha, Hl. reflexivity. Qed.

(** An item with no mask takes over what the last mask assigned. *)
Lemma item_try_maskless_bound (it : node) (s : frame) (l t w : option string) :
  overflows it = false -> find is_mask it = None ->
  language s = Some l -> thumbnail s = Some t -> watch_link s = Some w ->
  item_try it s = (Ok tt, appended s l t w (movie_of it l t w)).
Proof.
  intros Ho Ha Hl Ht Hw. rewrite item_try_eq, Ho, Ha, Hl, Ht, Hw. reflexivity.
Qed.

(** ** The loop over the items *)

Lemma item_step_ok (it : node) (s : frame) :
  item_step it s = (Ok tt, frame_after [it] s).
Proof.
  unfold frame_after. simpl. unfold bind, ret, item_step, try_except, print.
  destruct (item_try it s) as [[[]|e] s']; reflexivity.
Qed.

Lemma item_step_cases (it : node) (s : frame) :
  (raises it s = false /\
   exists l t w, frame_after [it] s = appended s l t w (movie_of it l t w)) \/
  (raises it s = true /\
   exists e, try_error e /\
     movies (frame_after [it] s) = movies s /\
     stdout (frame_after [it] s) = (stdout s ++ [ErrorParsingItem e])%list).
Proof.
  unfold raises, frame_after. simpl.
  unfold bind, ret, item_step, try_except, print.
  destruct (item_try it s) as [[[]|e] s'] eqn:H; simpl.
  - left. split; [reflexivity|]. apply item_try_record. exact H.
  - right. split; [reflexivity|].
    apply item_try_raise in H. destruct H as (-> & He).
    destruct (after_mask_keeps it s) as [-> ->]. eauto.
Qed.

Lemma for_each_cons (it : node) (rest : list node) (s : frame) :
  for_each (it :: rest) item_step s = for_each rest item_step (frame_after [it] s).
Proof.
  simpl. unfold bind. rewrite item_step_ok. reflexivity.
Qed.

Lemma frame_after_cons (it : node) (rest : list node) (s : frame) :
  frame_after (it :: rest) s = frame_after rest (frame_after [it] s).
Proof. unfold frame_after at 1. rewrite for_each_cons. reflexivity. Qed.

Lemma for_each_ok (items : list node) (s : frame) :
  for_each items item_step s = (Ok tt, frame_after items s).
Proof.
  revert s. induction items as [|it rest IH]; intros s.
  - reflexivity.
  - rewrite for_each_cons, (frame_after_cons it rest). apply IH.
Qed.

(** The loop appends one record for each item that does not raise, in
    the order of the items, and prints one line for each that does. *)
Lemma loop_movies (items : list node) (s : frame) :
  exists recs errs,
    movies (frame_after items s) = (movies s ++ recs)%list /\
    stdout (frame_after items s) = (stdout s ++ map ErrorParsingItem errs)%list /\
    Forall2 record_of recs (kept items (raising items s)) /\
    length errs = length (filter (fun b => b) (raising items s)) /\
    Forall try_error errs.
Proof.
  revert s. induction items as [|it rest IH]; intros s.
  - exists [], []. simpl. rewrite !app_nil_r. repeat split; constructor.
  - rewrite (frame_after_cons it rest). simpl raising. simpl kept.
    destruct (IH (frame_after [it] s)) as (recs & errs & Hm & Ho & Hr & Hl & He).
    destruct (item_step_cases it s)
      as [(Hf & l & t & w & Hs)|(Hf & e & Hte & Hsm & Hso)]; rewrite Hf.
    + exists (movie_of it l t w :: recs), errs.
      rewrite Hs in *. rewrite Hm, Ho. simpl. rewrite <- app_assoc. simpl.
      repeat split; try assumption.
      constructor; [|exact Hr]. exists l, t, w. reflexivity.
    + exists recs, (e :: errs).
      rewrite Hm, Ho, Hsm, Hso. simpl. rewrite <- app_assoc. simpl.
      repeat split; try assumption; [now rewrite Hl|].
      constructor; assumption.
Qed.

Lemma extract_eq (soup : node) (out : list out_line) :
  extract_movies_from_soup soup out =
  match find is_container soup with
  | None => (Ok [], out)
  | Some c =>
      let s := frame_after (find_all is_item c) (start out) in
      (Ok (movies s), stdout s)
  end.
Proof.
  unfold extract_movies_from_soup, extract_body. fold (start out).
  destruct (find is_container soup) as [c|]; [|reflexivity].
  unfold bind. rewrite for_each_ok. reflexivity.
Qed.

(** ** The page fetcher *)

Lemma fetch_loop_cons (url : string) (backoff : Q)
  (attempt : Z) (rest : list Z) (w : World.t) :
  fetch_loop url backoff (attempt :: rest) w =
  let o := World.net w (length (World.requests w)) in
  match page_of o with
  | Some t =>
      (Ok (Some t),
       World.Build (World.net w) (World.requests w ++ [url]) (World.slept w)
                   (World.stdout w) (World.files w))
  | None =>
      let d := Qmult backoff (inject_Z (attempt + 1)) in
      let w1 :=
        World.Build (World.net w) (World.requests w ++ [url]) (World.slept w)
                    (World.stdout w ++ [failure_line attempt o])
                    (World.files w) in
      if negb (Qle_bool clock_min d && Qle_bool d clock_max)
      then (Raise OverflowError, w1)
      else if Qle_bool 0 d then
        fetch_loop url backoff rest
          (World.Build (World.net w) (World.requests w ++ [url])
                       (World.slept w ++ [d])
                       (World.stdout w ++ [failure_line attempt o])
                       (World.files w))
      else (Raise ValueError, w1)
  end.
Proof.
  cbn [fetch_loop]. unfold bind, try_except, session_get, page_of, failure_line.
  destruct (World.net w _) as [r|msg]; cbn [status_code text].
  - destruct (status_code r =? 200)%Z; [reflexivity|].
    unfold echo, ret, sleep. cbn.
    destruct (negb _); [reflexivity|]. destruct (Qle_bool 0 _); reflexivity.
  - unfold echo, ret, sleep. cbn.
    destruct (negb _); [reflexivity|]. destruct (Qle_bool 0 _); reflexivity.
Qed.

Lemma clock_min_negative : (clock_min <= 0)%Q.
Proof. unfold Qle. vm_compute. discriminate. Qed.

Lemma delay_le (backoff : Q) (k m : Z) :
  (0 <= backoff)%Q -> (0 <= k <= m)%Z ->
  (Qmult backoff (inject_Z k) <= Qmult backoff (inject_Z m))%Q.
Proof.
  intros Hb Hk. destruct backoff as [bn bd].
  unfold Qle, Qmult in *. cbn [Qnum Qden inject_Z] in *.
  apply Z.mul_le_mono_nonneg_r; [lia|].
  apply Z.mul_le_mono_nonneg_l; lia.
Qed.

Lemma delay_not_negative (backoff : Q) (i : nat) :
  (0 <= backoff)%Q ->
  Qle_bool 0 (Qmult backoff (inject_Z (Z.of_nat i + 1))) = true.
Proof.
  intros H. apply Qle_bool_iff. apply Qmult_le_0_compat; [exact H|].
  unfold Qle. simpl. lia.
Qed.

(** The delays up to the [m]-th are within the clock when the [m]-th
    is. *)
Lemma delay_in_clock (backoff : Q) (m i : nat) :
  (0 <= backoff)%Q ->
  (Qmult backoff (inject_Z (Z.of_nat m)) <= clock_max)%Q ->
  (i < m)%nat ->
  let d := Qmult backoff (inject_Z (Z.of_nat i + 1)) in
  negb (Qle_bool clock_min d && Qle_bool d clock_max) = false.
Proof.
  intros Hb Hm Hi d. apply negb_false_iff, andb_true_iff.
  assert (Hd : Qle_bool 0 d = true) by now apply delay_not_negative.
  apply Qle_bool_iff in Hd. split; apply Qle_bool_iff.
  - apply (Qle_trans _ 0); [apply clock_min_negative|exact Hd].
  - apply (Qle_trans _ (Qmult backoff (inject_Z (Z.of_nat m)))); [|exact Hm].
    apply delay_le; [exact Hb|lia].
Qed.

Lemma fetch_loop_spec (url : string) (backoff : Q) (m : nat) :
  (0 <= backoff)%Q ->
  (Qmult backoff (inject_Z (Z.of_nat m)) <= clock_max)%Q ->
  forall (n a : nat) (w : World.t),
  (a + n <= m)%nat ->
  exists (r : option string) (w' : World.t) (f : nat),
    fetch_loop url backoff (map Z.of_nat (seq a n)) w = (Ok r, w') /\
    (forall j, (j < f)%nat ->
       page_of (World.net w (length (World.requests w) + j)) = None) /\
    World.slept w' = (World.slept w ++ delays backoff a f)%list /\
    World.net w' = World.net w /\
    World.files w' = World.files w /\
    match r with
    | Some t =>
        (f < n)%nat /\
        page_of (World.net w (length (World.requests w) + f)) = Some t /\
        World.requests w' = (World.requests w ++ repeat url (S f))%list
    | None =>
        f = n /\
        World.requests w' = (World.requests w ++ repeat url f)%list
    end.
Proof.
  intros Hb Hmax n. induction n as [|n IH]; intros a w Ham.
  - exists None, w, 0%nat. simpl. unfold ret, delays. simpl.
    rewrite !app_nil_r. repeat split; try reflexivity. intros j Hj; lia.
  - simpl seq. simpl map. rewrite fetch_loop_cons. cbv zeta.
    destruct (page_of (World.net w (length (World.requests w)))) as [t|] eqn:Hp.
    + eexists (Some t), _, 0%nat. split; [reflexivity|]. unfold delays. simpl.
      rewrite app_nil_r, Nat.add_0_r.
      repeat split; try reflexivity; try lia; try assumption.
    + rewrite (@delay_in_clock backoff m a Hb Hmax) by lia.
      rewrite (delay_not_negative a Hb).
      match goal with |- context [fetch_loop _ _ _ ?w2] =>
        destruct (IH (S a) w2 ltac:(lia))
          as (r & w' & f & Hrun & Hfail & Hsl & Hnet & Hfi & Hr) end.
      cbn [World.net World.requests World.slept World.stdout World.files]
        in Hfail, Hsl, Hnet, Hfi, Hr.
      rewrite length_app in Hfail, Hr. cbn [length] in Hfail, Hr.
      exists r, w', (S f). split; [exact Hrun|].
      split.
      { intros [|j] Hj.
        - rewrite Nat.add_0_r. exact Hp.
        - replace (length (World.requests w) + S j)%nat
            with (length (World.requests w) + 1 + j)%nat by lia.
          apply Hfail. lia. }
      split.
      { rewrite Hsl. unfold delays. cbn [seq map].
        rewrite <- app_assoc. reflexivity. }
      split; [exact Hnet|]. split; [exact Hfi|].
      destruct r as [t|].
      * destruct Hr as (Hlt & Hpg & Hreq). split; [lia|]. split.
        { replace (length (World.requests w) + S f)%nat
            with (length (World.requests w) + 1 + f)%nat by lia. exact Hpg. }
        rewrite Hreq. rewrite <- app_assoc. reflexivity.
      * destruct Hr as (Hf & Hreq). split; [lia|].
        rewrite Hreq. rewrite <- app_assoc. reflexivity.
Qed.





(** So does a delay that is too long for the clock, with one try. *)
Remark long_delay_raises :
  ~ fetch_ends_normally URL 1 10000000000%Q Sample.third_time.
Proof. intros (r & w' & H). vm_compute in H. discriminate H. Qed.

(** ** The entry point *)

Lemma extract_ok (soup : node) (out : list out_line) :
  exists recs out', extract_movies_from_soup soup out = (Ok recs, out').
Proof.
  rewrite extract_eq. destruct (find is_container soup); eauto.
Qed.

Lemma one_not_negative : (0 <= 1)%Q.
Proof. unfold Qle. simpl. lia. Qed.

Lemma three_in_clock : (Qmult 1 (inject_Z (Z.of_nat 3)) <= clock_max)%Q.
Proof. unfold Qle. vm_compute. discriminate. Qed.

Section MainProofs.

Variable parse : string -> node.

Lemma main_after_fetch (w w1 : World.t) (html : option string) :
  fetch_html URL 3 1%Q w = (Ok html, w1) ->
  main parse w =
  match html with
  | Some (String c t) =>
      let '(r, out) :=
        extract_movies_from_soup (parse (String c t)) (World.stdout w1) in
      match r with
      | Ok recs =>
          (Ok tt,
           World.Build (World.net w1) (World.requests w1) (World.slept w1)
             (out ++ [WroteMovies (length recs) OUTPUT_FILE])
             ((OUTPUT_FILE, JDict [("movies", JList (map movie_json recs))])
                :: World.files w1))
      | Raise e =>
          (Raise e,
           World.Build (World.net w1) (World.requests w1) (World.slept w1)
             out (World.files w1))
      end
  | _ =>
      (Ok tt,
       World.Build (World.net w1) (World.requests w1) (World.slept w1)
         (World.stdout w1 ++ [FailedToFetch URL]) (World.files w1))
  end.
Proof.
  intros Hrun. unfold main, bind at 1. rewrite Hrun.
  destruct html as [[|c t]|]; cbn [truthy_opt truthy negb]; try reflexivity.
  unfold bind, call_extract, write_json, echo.
  destruct (extract_movies_from_soup _ _) as [[recs|e] out]; reflexivity.
Qed.

Lemma main_eq (w : World.t) :
  exists html w1,
    fetch_html URL 3 1%Q w = (Ok html, w1) /\
    World.files w1 = World.files w /\
    ((exists t recs out,
        html = Some t /\ t <> "" /\
        extract_movies_from_soup (parse t) (World.stdout w1) = (Ok recs, out) /\
        main parse w =
          (Ok tt,
           World.Build (World.net w1) (World.requests w1) (World.slept w1)
             (out ++ [WroteMovies (length recs) OUTPUT_FILE])
             ((OUTPUT_FILE, JDict [("movies", JList (map movie_json recs))])
                :: World.files w)))
     \/
     ((html = None \/ html = Some "") /\
      main parse w =
        (Ok tt,
         World.Build (World.net w1) (World.requests w1) (World.slept w1)
           (World.stdout w1 ++ [FailedToFetch URL]) (World.files w)))).
Proof.
  unfold fetch_html, range.
  destruct (@fetch_loop_spec URL 1%Q 3 one_not_negative three_in_clock
              (Z.to_nat 3) 0%nat w (Nat.le_refl 3))
    as (html & w1 & f & Hrun & _ & _ & _ & Hfi & _).
  exists html, w1. split; [exact Hrun|]. split; [exact Hfi|].
  fold (range 3) in Hrun. fold (fetch_html URL 3 1%Q) in Hrun.
  rewrite (main_after_fetch w Hrun), Hfi.
  destruct html as [[|c t]|].
  - right. split; [now right|]. reflexivity.
  - left.
    destruct (extract_ok (parse (String c t)) (World.stdout w1))
      as (recs & out & Hex).
    exists (String c t), recs, out.
    split; [reflexivity|]. split; [discriminate|]. split; [exact Hex|].
    rewrite Hex. reflexivity.
  - right. split; [now left|]. reflexivity.
Qed.

End MainProofs.

(** ** The document tree *)

Lemma in_descendants_tag (x : node) nm cl at_ cs :
  In x (descendants (Tag nm cl at_ cs)) <->
  exists c, In c cs /\ (x = c \/ In x (descendants c)).
Proof.
  simpl. rewrite in_flat_map. split.
  - intros (c & Hc & [H|H]); exists c; auto.
  - intros (c & Hc & [H|H]); exists c; simpl; auto.
Qed.

(** What is below a node that is below [c] is below [c]. *)
Lemma descendants_trans (a b c : node) :
  In a (descendants b) -> In b (descendants c) -> In a (descendants c).
Proof.
  intros Hab. induction c as [s|nm cl at_ cs IH] using node_induction.
  - intros [].
  - rewrite !in_descendants_tag. intros (ch & Hch & [->|Hb]).
    + exists ch. auto.
    + exists ch. split; [exact Hch|]. right.
      rewrite Forall_forall in IH. apply (IH ch Hch Hb).
Qed.

Lemma find_in (p : node -> bool) (n d : node) :
  find p n = Some d -> In d (descendants n) /\ is_tag d = true /\ p d = true.
Proof.
  unfold find. intros H. apply find_some in H. destruct H as [Hin Hp].
  apply andb_true_iff in Hp. tauto.
Qed.

Lemma find_all_in (p : node -> bool) (n d : node) :
  In d (find_all p n) <-> In d (descendants n) /\ is_tag d = true /\ p d = true.
Proof.
  unfold find_all. rewrite filter_In, andb_true_iff. tauto.
Qed.

(** [find] gives the first node of the document order that passes. *)
Lemma find_first (p : node -> bool) (n d : node) :
  find p n = Some d <->
  exists pre post,
    descendants n = (pre ++ d :: post)%list /\
    is_tag d && p d = true /\
    forall x, In x pre -> is_tag x && p x = false.
Proof.
  unfold find. generalize (descendants n) as l.
  induction l as [|y l IH]; simpl.
  - split; [discriminate|]. intros (pre & post & H & _).
    destruct pre; discriminate.
  - destruct (is_tag y && p y) eqn:Hy.
    + split.
      * intros [= <-]. exists [], l. simpl. repeat split; auto.
        intros x [].
      * intros (pre & post & H & Hd & Hpre). destruct pre as [|z pre].
        -- simpl in H. congruence.
        -- simpl in H. injection H as <- _.
           rewrite (Hpre y) in Hy; [discriminate|now left].
    + rewrite IH. split.
      * intros (pre & post & -> & Hd & Hpre). exists (y :: pre), post.
        repeat split; auto. intros x [<-|Hx]; auto.
      * intros (pre & post & H & Hd & Hpre). destruct pre as [|z pre].
        -- simpl in H. injection H as -> _. congruence.
        -- simpl in H. injection H as <- ->. exists pre, post.
           repeat split; auto. intros x Hx. apply Hpre. now right.
Qed.

Lemma find_none_iff (p : node -> bool) (n : node) :
  find p n = None <->
  forall x, In x (descendants n) -> is_tag x && p x = false.
Proof.
  unfold find. split.
  - intros H x Hx. apply (List.find_none _ _ H x Hx).
  - intros H. destruct (List.find _ _) as [d|] eqn:Hd; [|reflexivity].
    apply find_some in Hd. rewrite (H d) in Hd; [|tauto]. destruct Hd; discriminate.
Qed.

(** The [string] of a tag is one of the pieces of text below it. *)
Lemma string_in_descendants (n : node) (s : string) :
  is_tag n = true -> string_ n = Some s ->
  In (NavigableString s) (descendants n).
Proof.
  induction n as [t|nm cl at_ cs IH] using node_induction; [discriminate|].
  intros _. destruct cs as [|c [|c' cs]]; try discriminate.
  simpl string_. intros H. apply in_descendants_tag.
  exists c. split; [now left|].
  destruct c as [t|nm' cl' at' cs'].
  - simpl in H. left. congruence.
  - right. inversion IH as [|? ? Hc _]. apply Hc; [reflexivity|exact H].
Qed.

(** ** The genre loops *)

Lemma link_pairs_cons (a : node) (rest : list node) :
  link_pairs (a :: rest) =
  (match safe_text (Some a) with
   | Some g => if truthy g then [(g, get "href" a)] else []
   | None => []
   end ++ link_pairs rest)%list.
Proof. reflexivity. Qed.

Lemma genre_block_loop_eq (links : list node) :
  forall genres genre_links,
  genre_block_loop links genres genre_links =
  ((genres ++ map fst (link_pairs links))%list,
   (genre_links ++ map snd (link_pairs links))%list).
Proof.
  induction links as [|a rest IH]; intros genres genre_links.
  - simpl. now rewrite !app_nil_r.
  - cbn [genre_block_loop]. rewrite link_pairs_cons.
    destruct (safe_text (Some a)) as [g|]; [|apply IH].
    destruct (truthy g); [|apply IH].
    rewrite IH. simpl. now rewrite <- !app_assoc.
Qed.

Lemma py_in_app (g : string) (l1 l2 : list string) :
  py_in g (l1 ++ l2) = py_in g l1 || py_in g l2.
Proof. unfold py_in. apply existsb_app. Qed.

Lemma unseen_snoc (seen : list string) (g : string) ps :
  unseen (seen ++ [g]) ps =
  unseen seen (filter (fun q => negb (String.eqb g (fst q))) ps).
Proof.
  unfold unseen. induction ps as [|q ps IH]; [reflexivity|].
  cbn [filter]. rewrite py_in_app. cbn [py_in existsb].
  rewrite orb_false_r, (String.eqb_sym g).
  destruct (String.eqb (fst q) g); cbn [negb filter];
    destruct (py_in (fst q) seen); cbn [negb orb];
    rewrite ?orb_true_r; cbn [negb]; now rewrite IH.
Qed.

Lemma unseen_drop (seen : list string) (g : string) ps :
  py_in g seen = true ->
  unseen seen (filter (fun q => negb (String.eqb g (fst q))) ps) = unseen seen ps.
Proof.
  intros Hg. unfold unseen. induction ps as [|q ps IH]; simpl; [reflexivity|].
  destruct (String.eqb g (fst q)) eqn:E; simpl.
  - apply String.eqb_eq in E. rewrite <- E, Hg. simpl. exact IH.
  - now rewrite IH.
Qed.

Lemma unseen_first_pairs_cons (seen : list string) p rest :
  unseen seen (first_pairs (p :: rest)) =
  if py_in (fst p) seen then unseen seen (first_pairs rest)
  else p :: unseen (seen ++ [fst p]) (first_pairs rest).
Proof.
  cbn [first_pairs]. unfold unseen at 1. cbn [filter].
  destruct (py_in (fst p) seen) eqn:Hin; cbn [negb].
  - apply unseen_drop. exact Hin.
  - f_equal. now rewrite unseen_snoc.
Qed.

Lemma genre_fallback_loop_eq (links : list node) :
  forall genres genre_links,
  genre_fallback_loop links genres genre_links =
  ((genres ++ map fst (unseen genres (first_pairs (link_pairs links))))%list,
   (genre_links ++ map snd (unseen genres (first_pairs (link_pairs links))))%list).
Proof.
  induction links as [|a rest IH]; intros genres genre_links.
  - simpl. now rewrite !app_nil_r.
  - cbn [genre_fallback_loop]. rewrite link_pairs_cons.
    destruct (safe_text (Some a)) as [g|]; [|apply IH].
    destruct (truthy g); cbn [andb app]; [|apply IH].
    rewrite unseen_first_pairs_cons. cbn [fst].
    destruct (py_in g genres); cbn [negb]; rewrite IH; [reflexivity|].
    cbn [map fst snd]. now rewrite <- !app_assoc.
Qed.

Lemma unseen_nil ps : unseen [] ps = ps.
Proof.
  unfold unseen. induction ps as [|q ps IH]; [reflexivity|].
  cbn [filter py_in existsb negb]. now f_equal.
Qed.

Lemma genres_of_eq (hidden : node) :
  genres_of hidden =
  let ps := match find is_genre_block hidden with
            | Some d => link_pairs (find_all (named "a") d)
            | None => first_pairs (link_pairs (find_all is_genre_link hidden))
            end in
  (map fst ps, map snd ps).
Proof.
  unfold genres_of. destruct (find is_genre_block hidden) as [d|].
  - now rewrite genre_block_loop_eq.
  - rewrite genre_fallback_loop_eq. simpl. now rewrite unseen_nil.
Qed.

Lemma in_link_pairs (links : list node) (g : string) (u : option string) :
  In (g, u) (link_pairs links) ->
  exists a, In a links /\ safe_text (Some a) = Some g /\ get "href" a = u.
Proof.
  unfold link_pairs. rewrite in_flat_map. intros (a & Ha & Hin).
  exists a. split; [exact Ha|].
  destruct (safe_text (Some a)) as [g'|]; [|destruct Hin].
  destruct (truthy g'); [|destruct Hin].
  destruct Hin as [[= -> ->]|[]]. auto.
Qed.

Lemma in_first_pairs ps (q : string * option string) :
  In q (first_pairs ps) -> In q ps.
Proof.
  induction ps as [|p rest IH]; simpl; [auto|].
  intros [->|H]; [now left|]. right. apply IH.
  apply filter_In in H. tauto.
Qed.

(** ** The extractor as a whole *)

(** C7.  A call of [extract_movies_from_soup] ends normally with a list
    of records, whatever the page; when the page has no [div] of class
    [movies-list], the list is empty and nothing is printed. *)
Theorem extract_never_raises (soup : node) (out : list out_line) :
  exists recs out',
    extract_movies_from_soup soup out = (Ok recs, out') /\
    (find is_container soup = None -> recs = [] /\ out' = out).
Proof.
  rewrite extract_eq. destruct (find is_container soup) as [c|].
  - eexists _, _. split; [reflexivity|]. discriminate.
  - exists [], out. split; [reflexivity|]. auto.
Qed.

Lemma kept_all (items : list node) :
  kept items (repeat false (length items)) = items.
Proof. induction items as [|it rest IH]; simpl; [reflexivity|now rewrite IH]. Qed.

Lemma kept_but_one (l1 : list node) (x : node) (l2 : list node) :
  kept (l1 ++ x :: l2)
       (repeat false (length l1) ++ true :: repeat false (length l2)) =
  (l1 ++ l2)%list.
Proof.
  induction l1 as [|it rest IH]; simpl.
  - apply kept_all.
  - now rewrite IH.
Qed.

Lemma one_flag (n m : nat) :
  filter (fun b : bool => b) (repeat false n ++ true :: repeat false m) = [true].
Proof.
  induction n as [|n IH]; simpl; [|exact IH].
  f_equal. induction m as [|m IH]; simpl; [reflexivity|exact IH].
Qed.

(** C2.  When the [try] of exactly one item [x] of the page raises, the
    call returns the records of the items before [x] followed by the
    records of the items after [x], each list in the order of its items,
    and nothing for [x], for which one line is printed. *)
Theorem raising_item_is_skipped (soup c : node) (out : list out_line)
  (l1 : list node) (x : node) (l2 : list node) :
  find is_container soup = Some c ->
  find_all is_item c = (l1 ++ x :: l2)%list ->
  raising (l1 ++ x :: l2) (start out) =
    (repeat false (length l1) ++ true :: repeat false (length l2))%list ->
  exists recs1 recs2 e,
    extract_movies_from_soup soup out =
      (Ok (recs1 ++ recs2)%list, (out ++ [ErrorParsingItem e])%list) /\
    Forall2 record_of recs1 l1 /\
    Forall2 record_of recs2 l2.
Proof.
  intros Hc Hitems Hflags. rewrite extract_eq, Hc, Hitems. cbv zeta.
  destruct (loop_movies (l1 ++ x :: l2) (start out))
    as (recs & errs & Hm & Ho & Hrecs & Hlen & _).
  rewrite Hflags, kept_but_one in Hrecs. rewrite Hflags, one_flag in Hlen.
  apply Forall2_app_inv_r in Hrecs.
  destruct Hrecs as (recs1 & recs2 & H1 & H2 & ->).
  destruct errs as [|e [|e' errs]]; try discriminate.
  exists recs1, recs2, e. rewrite Hm, Ho. simpl. auto.
Qed.

Lemma named_name (nm : string) (n : node) :
  named nm n = true <-> name n = Some nm.
Proof.
  unfold named. destruct (name n) as [nm'|]; [|split; discriminate].
  rewrite String.eqb_eq. split; congruence.
Qed.

Lemma item_hidden_below (it x : node) :
  In x (descendants (item_hidden it)) -> In x (descendants it).
Proof.
  unfold item_hidden. destruct (find is_hidden_tip it) as [h|] eqn:Hh; [|auto].
  intros Hx. apply find_in in Hh. apply (descendants_trans _ _ _ Hx). tauto.
Qed.

(** The pairs of the genre lists of a details scope come from links of
    the scope. *)
Lemma genres_of_pairs (hidden : node) :
  exists ps,
    genres_of hidden = (map fst ps, map snd ps) /\
    forall g u, In (g, u) ps ->
      exists a, In a (descendants hidden) /\ taken_from a g u.
Proof.
  rewrite genres_of_eq. cbv zeta.
  destruct (find is_genre_block hidden) as [d|] eqn:Hd.
  - eexists. split; [reflexivity|]. intros g u Hin.
    apply in_link_pairs in Hin. destruct Hin as (a & Ha & Ht & Hu).
    apply find_all_in in Ha. destruct Ha as (Ha & _ & Hn).
    apply find_in in Hd. exists a. split.
    + apply (descendants_trans _ _ _ Ha). tauto.
    + unfold taken_from. rewrite <- named_name. auto.
  - eexists. split; [reflexivity|]. intros g u Hin.
    apply in_first_pairs, in_link_pairs in Hin.
    destruct Hin as (a & Ha & Ht & Hu).
    apply find_all_in in Ha. destruct Ha as (Ha & _ & Hn).
    unfold is_genre_link in Hn. apply andb_true_iff in Hn.
    exists a. split; [exact Ha|].
    unfold taken_from. rewrite <- named_name. tauto.
Qed.

Lemma record_genres_parallel (r : Movie.t) (it : node) :
  record_of r it -> genres_parallel it r.
Proof.
  intros (l & t & w & ->). unfold genres_parallel, movie_of. cbn.
  destruct (genres_of_pairs (item_hidden it)) as (ps & -> & Hps). cbn.
  split; [now rewrite !length_map|].
  intros i g u Hg Hu.
  rewrite nth_error_map in Hg, Hu.
  destruct (nth_error ps i) as [[g' u']|] eqn:Hi; [|discriminate].
  cbn in Hg, Hu. injection Hg as ->. injection Hu as ->.
  apply nth_error_In in Hi. destruct (Hps g u Hi) as (a & Ha & Ht).
  exists a. split; [|exact Ht]. now apply item_hidden_below.
Qed.

Lemma kept_in (items : list node) (flags : list bool) (x : node) :
  In x (kept items flags) -> In x items.
Proof.
  revert flags. induction items as [|it rest IH]; intros [|f flags]; simpl;
    try tauto.
  destruct f; simpl; intros H.
  - right. apply (IH _ H).
  - destruct H as [->|H]; [now left|]. right. apply (IH _ H).
Qed.

Lemma Forall2_in_left {A B} (R : A -> B -> Prop) (xs : list A) (ys : list B)
  (x : A) :
  Forall2 R xs ys -> In x xs -> exists y, In y ys /\ R x y.
Proof.
  induction 1 as [|x' y' xs ys Hxy _ IH]; simpl; [tauto|].
  intros [<-|Hx].
  - exists y'. auto.
  - destruct (IH Hx) as (y & Hy & Hr). exists y. auto.
Qed.

(** Every record of a call is a record of an item of the page. *)
Lemma extract_records (soup : node) (out out' : list out_line)
  (recs : list Movie.t) :
  extract_movies_from_soup soup out = (Ok recs, out') ->
  Forall (fun r => exists it, In it (descendants soup) /\ record_of r it) recs.
Proof.
  rewrite extract_eq. destruct (find is_container soup) as [c|] eqn:Hc.
  2:{ intros [= <- _]. constructor. }
  cbv zeta. intros [= <- _].
  destruct (loop_movies (find_all is_item c) (start out))
    as (recs & errs & Hm & _ & Hrecs & _).
  rewrite Hm. simpl. apply Forall_forall. intros r Hr.
  destruct (@Forall2_in_left _ _ _ _ _ r Hrecs Hr) as (it & Hit & Hrec).
  exists it. split; [|exact Hrec].
  apply kept_in, find_all_in in Hit. apply find_in in Hc.
  apply (descendants_trans it c soup); tauto.
Qed.

(** C3.  In every record that a call returns, [genres] and
    [links.genres] have the same length, and at every index the label
    and the URL were taken from the same link of the page: the text of
    that link is the label and its [href] is the URL.  The two loops
    that fill the lists are covered by the one statement. *)
Theorem genres_match_their_links (soup : node) (out out' : list out_line)
  (recs : list Movie.t) :
  extract_movies_from_soup soup out = (Ok recs, out') ->
  Forall (genres_parallel soup) recs.
Proof.
  intros H. apply extract_records in H.
  eapply Forall_impl; [|exact H]. cbv beta.
  intros r (it & Hit & Hrec). apply record_genres_parallel in Hrec.
  destruct Hrec as [Hlen Hidx]. split; [exact Hlen|].
  intros i g u Hg Hu. destruct (Hidx i g u Hg Hu) as (a & Ha & Ht).
  exists a. split; [|exact Ht]. apply (descendants_trans a it soup Ha Hit).
Qed.

(** ** Fields *)

Lemma id_of_fails (it : node) (d : string) (e : exn) :
  data_id it = Some d -> Py.int d = Raise e -> id_of it = None.
Proof.
  unfold id_of, value_of, item_id. intros -> He.
  unfold try_except, bind, lift, ret. destruct (truthy d); [|reflexivity].
  rewrite He. reflexivity.
Qed.

Lemma year_of_fails (hidden y : node) :
  find is_year_link hidden = Some y ->
  (forall t, safe_text (Some y) = Some t -> Re.search_4digits t = None) ->
  fst (year_of hidden) = None.
Proof.
  unfold year_of, value_of, item_year. intros -> Ht.
  unfold try_except, bind, lift, ret, re_search_4digits.
  destruct (safe_text (Some y)) as [t|]; [|reflexivity].
  rewrite (Ht t eq_refl). reflexivity.
Qed.

Lemma imdb_of_fails (hidden el : node) :
  find is_imdb hidden = Some el ->
  (forall t, safe_text (Some el) = Some t -> Re.search_decimal t = None) ->
  imdb_of hidden = None.
Proof.
  unfold imdb_of, value_of, item_imdb, parse_imdb. intros -> Ht.
  destruct (safe_text (Some el)) as [t|]; [|reflexivity].
  destruct (truthy t); [|reflexivity].
  rewrite (Ht t eq_refl). reflexivity.
Qed.

(** C8.  The [id], [year] and [imdb_rating] of a record are numbers or
    [None] (they are an [option] of a number), and a text that does not
    convert gives [None]: an id attribute that [int] refuses, a year link
    whose text has no run of four digits, a rating block whose text has
    no decimal number.  No exception leaves the turn of the item, and
    what ends its [try] abruptly is never one of these conversions: it
    is the [RecursionError] of a search for a labelled block or the
    [UnboundLocalError] of a variable of the mask. *)
Theorem numeric_fields_or_none (it : node) (s : frame) :
  fst (item_step it s) = Ok tt /\
  (forall e s', item_try it s = (Raise e, s') ->
     e = RecursionError \/ exists var, e = UnboundLocalError var) /\
  (forall s', item_try it s = (Ok tt, s') ->
     exists r,
       movies s' = (movies s ++ [r])%list /\
       (forall d e, data_id it = Some d -> Py.int d = Raise e ->
          Movie.id r = None) /\
       (forall y, find is_year_link (item_hidden it) = Some y ->
          (forall t, safe_text (Some y) = Some t ->
             Re.search_4digits t = None) ->
          Movie.year r = None) /\
       (forall el, find is_imdb (item_hidden it) = Some el ->
          (forall t, safe_text (Some el) = Some t ->
             Re.search_decimal t = None) ->
          Movie.imdb_rating r = None)).
Proof.
  split; [now rewrite item_step_ok|]. split.
  - intros e s' H. apply item_try_raise in H. apply H.
  - intros s' H. apply item_try_record in H. destruct H as (l & t & w & ->).
    exists (movie_of it l t w). split; [reflexivity|]. cbn.
    split; [|split].
    + intros d e. apply id_of_fails.
    + intros y. apply year_of_fails.
    + intros el. apply imdb_of_fails.
Qed.

Lemma names_filter_nodup (keep : string * option string -> bool)
  (ps : list (string * option string)) :
  NoDup (map fst ps) -> NoDup (map fst (filter keep ps)).
Proof.
  intros Hps. induction ps as [|q ps IH]; cbn [filter map]; [constructor|].
  cbn [map] in Hps. apply NoDup_cons_iff in Hps. destruct Hps as [Hq Hrest].
  destruct (keep q); cbn [map]; [|now apply IH].
  apply NoDup_cons; [|now apply IH].
  rewrite in_map_iff. intros (q' & Hname & Hin).
  apply filter_In in Hin. apply Hq. rewrite in_map_iff. exists q'. tauto.
Qed.

(** No name comes twice among the first pairs. *)
Lemma first_pairs_nodup ps : NoDup (map fst (first_pairs ps)).
Proof.
  induction ps as [|p rest IH]; simpl; [constructor|].
  constructor; [|now apply names_filter_nodup].
  intros Hin. apply in_map_iff in Hin. destruct Hin as (q & Hq & Hin).
  apply filter_In in Hin. destruct Hin as [_ Hne].
  rewrite <- Hq, String.eqb_refl in Hne. discriminate.
Qed.

(** The pair kept for a name is the first pair of that name. *)
Lemma first_pairs_find ps (g : string) (u : option string) :
  In (g, u) (first_pairs ps) <->
  List.find (fun q => String.eqb g (fst q)) ps = Some (g, u).
Proof.
  induction ps as [|p rest IH]; simpl; [split; [tauto|discriminate]|].
  rewrite filter_In, IH. destruct (String.eqb g (fst p)) eqn:E.
  - apply String.eqb_eq in E. split.
    + intros [->|[_ Hne]]; [reflexivity|].
      cbn in Hne. rewrite E, String.eqb_refl in Hne. discriminate.
    + intros [= ->]. now left.
  - split.
    + intros [->|[H _]]; [|exact H].
      cbn in E. rewrite String.eqb_refl in E. discriminate.
    + intros H. right. split; [exact H|]. cbn.
      rewrite String.eqb_sym, E. reflexivity.
Qed.


(** ** The run *)

Section Run.

Variable parse : string -> node.

(** C10, as the code has it.  The run ends normally.  When the fetch
    returns a page text that is not empty, the run writes to the output
    file the document [{"movies": [...]}] of the records extracted from
    that page and prints how many there are.  When the fetch returns
    [None], or a page text that is empty, the run writes nothing and
    prints that the fetch failed. *)
Theorem main_writes_after_fetch (w : World.t) :
  exists html w1 w',
    fetch_html URL 3 1%Q w = (Ok html, w1) /\
    main parse w = (Ok tt, w') /\
    ((exists t recs out,
        html = Some t /\ t <> "" /\
        extract_movies_from_soup (parse t) (World.stdout w1) = (Ok recs, out) /\
        World.files w' =
          (OUTPUT_FILE, JDict [("movies", JList (map movie_json recs))])
            :: World.files w /\
        World.stdout w' = (out ++ [WroteMovies (length recs) OUTPUT_FILE])%list)
     \/
     ((html = None \/ html = Some "") /\
      World.files w' = World.files w /\
      World.stdout w' = (World.stdout w1 ++ [FailedToFetch URL])%list)).
Proof.
  destruct (main_eq parse w) as (html & w1 & Hfetch & _ & Hmain).
  exists html, w1.
  destruct Hmain as [(t & recs & out & Hh & Ht & Hex & Hm)|(Hh & Hm)];
    eexists; (split; [exact Hfetch|]); (split; [exact Hm|]).
  - left. exists t, recs, out. cbn. auto.
  - right. cbn. auto.
Qed.

End Run.

(** * Further properties *)


(** ** The loop as a function of the items *)

Lemma frame_after_one (it : node) (s : frame) :
  coherent s ->
  let s' := frame_after [it] s in
  coherent s' /\
  bound s' = match find is_mask it with
             | Some a => Some (mask_language a, mask_thumbnail a, mask_watch a)
             | None => bound s
             end /\
  movies s' = (movies s ++ records (bound s) [it])%list /\
  stdout s' = (stdout s ++ error_lines (bound s) [it])%list.
Proof.
  intros Hs. cbv zeta. unfold frame_after. cbn [for_each].
  unfold bind, ret, item_step, try_except, print. rewrite item_try_eq.
  cbn [records error_lines]. unfold after_mask.
  destruct (overflows it); destruct (find is_mask it) as [a|].
  - cbn. rewrite app_nil_r. split; [right; do 3 eexists; cbn; auto|]. auto.
  - destruct s as [sw sl st ms so]. unfold coherent in Hs. cbn in Hs.
    destruct Hs as [(-> & -> & ->)|(l & t & w & -> & -> & ->)]; cbn;
      rewrite app_nil_r.
    + split; [left; auto|]. auto.
    + split; [right; do 3 eexists; cbn; auto|]. auto.
  - cbn. rewrite app_nil_r. split; [right; do 3 eexists; cbn; auto|]. auto.
  - destruct s as [sw sl st ms so]. unfold coherent in Hs. cbn in Hs.
    destruct Hs as [(-> & -> & ->)|(l & t & w & -> & -> & ->)]; cbn;
      rewrite ?app_nil_r.
    + split; [left; auto|]. auto.
    + split; [right; do 3 eexists; cbn; auto|]. auto.
Qed.

(** The records and the lines of a list of items, one item at a time. *)
Lemma records_cons last (it : node) (rest : list node) :
  let last' := match find is_mask it with
               | Some a => Some (mask_language a, mask_thumbnail a, mask_watch a)
               | None => last
               end in
  records last (it :: rest) = (records last [it] ++ records last' rest)%list /\
  error_lines last (it :: rest) =
    (error_lines last [it] ++ error_lines last' rest)%list.
Proof.
  cbn [records error_lines].
  destruct (find is_mask it) as [a|]; destruct (overflows it);
    try destruct last as [[[l t] w]|]; cbn; auto.
Qed.

Lemma frame_after_records (items : list node) :
  forall s, coherent s ->
  let s' := frame_after items s in
  movies s' = (movies s ++ records (bound s) items)%list /\
  stdout s' = (stdout s ++ error_lines (bound s) items)%list.
Proof.
  induction items as [|it rest IH]; intros s Hs; cbv zeta.
  - cbn. now rewrite !app_nil_r.
  - rewrite (frame_after_cons it rest).
    destruct (frame_after_one it Hs) as (Hs' & Hb1 & Hm1 & Ho1).
    destruct (IH _ Hs') as [Hm Ho]. rewrite Hm, Ho, Hm1, Ho1, Hb1.
    destruct (records_cons (bound s) it rest) as [-> ->].
    now rewrite <- !app_assoc.
Qed.

Lemma extract_with_container (soup c : node) (out : list out_line) :
  find is_container soup = Some c ->
  fst (extract_movies_from_soup soup out) =
    Ok (records None (find_all is_item c)) /\
  snd (extract_movies_from_soup soup out) =
    (out ++ error_lines None (find_all is_item c))%list.
Proof.
  intros Hc. rewrite extract_eq, Hc. cbv zeta. cbn [fst snd].
  assert (Hs : coherent (start out)) by (left; auto).
  destruct (frame_after_records (find_all is_item c) Hs) as [Hm Ho].
  rewrite Hm, Ho. auto.
Qed.

Lemma pair_eta {A B} (p : A * B) (a : A) (b : B) :
  fst p = a -> snd p = b -> p = (a, b).
Proof. destruct p. cbn. congruence. Qed.

(** The call returns the records of the items of the first container,
    as [records] computes them from the items alone, and prints the
    lines that [error_lines] computes from them: one for each item with
    no mask that comes before every mask, and one for each item whose
    search for a labelled block overflows. *)
Theorem extract_is_records (soup c : node) (out : list out_line) :
  find is_container soup = Some c ->
  extract_movies_from_soup soup out =
  (Ok (records None (find_all is_item c)),
   (out ++ error_lines None (find_all is_item c))%list).
Proof.
  intros Hc. rewrite extract_eq, Hc. cbv zeta.
  assert (Hs : coherent (start out)) by (left; auto).
  destruct (frame_after_records (find_all is_item c) Hs) as [Hm Ho].
  rewrite Hm, Ho. reflexivity.
Qed.

Lemma records_bound (last : option string * option string * option string)
  (items : list node) :
  Forall (fun it => overflows it = false) items ->
  Forall2 record_of (records (Some last) items) items /\
  error_lines (Some last) items = [].
Proof.
  intros Hno. revert last.
  induction Hno as [|it rest Hit _ IH]; intros [[l t] w];
    cbn [records error_lines].
  - split; [constructor|reflexivity].
  - rewrite Hit. destruct (find is_mask it) as [a|].
    + destruct (IH (mask_language a, mask_thumbnail a, mask_watch a)) as [H1 H2].
      split; [|exact H2]. constructor; [|exact H1]. do 3 eexists. reflexivity.
    + destruct (IH (l, t, w)) as [H1 H2].
      split; [|exact H2]. constructor; [|exact H1]. do 3 eexists. reflexivity.
Qed.

(** When no search overflows, the lines are those of the items with no
    mask that come before every mask. *)
Lemma error_lines_leading (items : list node) :
  Forall (fun it => overflows it = false) items ->
  error_lines None items =
  map (fun _ => ErrorParsingItem (UnboundLocalError "language"))
      (leading_maskless items).
Proof.
  induction 1 as [|it rest Hit Hrest IH]; [reflexivity|].
  cbn [error_lines leading_maskless]. rewrite Hit.
  destruct (find is_mask it) as [a|].
  - apply (records_bound _ Hrest).
  - cbn [map]. now rewrite IH.
Qed.

Lemma skipn_forall {A} (P : A -> Prop) (k : nat) (l : list A) :
  Forall P l -> Forall P (skipn k l).
Proof.
  intros H. apply Forall_forall. intros x Hx.
  rewrite Forall_forall in H. apply H.
  rewrite <- (firstn_skipn k l). apply in_or_app. now right.
Qed.

Lemma records_skip_leading (items : list node) :
  records None items =
  records None (skipn (length (leading_maskless items)) items).
Proof.
  induction items as [|it rest IH]; [reflexivity|].
  cbn [leading_maskless]. destruct (find is_mask it) as [a|] eqn:Ha.
  - reflexivity.
  - cbn [length skipn records]. rewrite Ha. exact IH.
Qed.

Lemma leading_maskless_prefix (items : list node) :
  leading_maskless items = firstn (length (leading_maskless items)) items /\
  Forall (fun it => find is_mask it = None) (leading_maskless items) /\
  match skipn (length (leading_maskless items)) items with
  | [] => True
  | it :: _ => find is_mask it <> None
  end.
Proof.
  induction items as [|it rest (IH1 & IH2 & IH3)]; [cbn; auto|].
  cbn [leading_maskless]. destruct (find is_mask it) as [a|] eqn:Ha.
  - cbn. rewrite Ha. repeat split; [constructor|discriminate].
  - cbn [length firstn skipn]. rewrite <- IH1. repeat split; auto.
Qed.

(** When no search for a labelled block overflows, the items that get
    no record are the items with no mask that stand before the first
    item with a mask, and no others: with [k] their number, the call
    returns one record for each item from the [k]-th on, in the order of
    the items, and prints [k] lines. *)
Theorem skipped_items_lead (soup c : node) (out : list out_line) :
  find is_container soup = Some c ->
  Forall (fun it => overflows it = false) (find_all is_item c) ->
  let items := find_all is_item c in
  let k := length (leading_maskless items) in
  exists recs lines,
    extract_movies_from_soup soup out = (Ok recs, (out ++ lines)%list) /\
    length lines = k /\
    Forall (fun it => find is_mask it = None) (firstn k items) /\
    match skipn k items with
    | [] => True
    | it :: _ => find is_mask it <> None
    end /\
    Forall2 record_of recs (skipn k items).
Proof.
  intros Hc Hno items k.
  destruct (extract_with_container soup out Hc) as [Hrecs Hout].
  rewrite (pair_eta _ Hrecs Hout), (error_lines_leading Hno). fold items.
  eexists _, _. split; [reflexivity|].
  destruct (leading_maskless_prefix items) as (Hpre & Hnone & Hfirst).
  fold k in Hpre, Hfirst.
  split; [now rewrite length_map|].
  split; [now rewrite <- Hpre|]. split; [exact Hfirst|].
  rewrite records_skip_leading. fold k.
  assert (Hrest := skipn_forall k Hno). fold items in Hrest.
  destruct (skipn k items) as [|it rest]; [constructor|].
  apply Forall_cons_iff in Hrest. destruct Hrest as [Hit Hrest].
  cbn [records]. rewrite Hit.
  destruct (find is_mask it) as [a|]; [|now destruct Hfirst].
  constructor; [do 3 eexists; reflexivity|apply (records_bound _ Hrest)].
Qed.


Lemma records_masked (last : option (option string * option string * option string))
  (items : list node) :
  Forall (fun it => find is_mask it <> None) items ->
  Forall (fun it => overflows it = false) items ->
  records last items = map own_record items /\ error_lines last items = [].
Proof.
  intros H. revert last. induction H as [|it rest Hit _ IH]; intros last Hno.
  - auto.
  - apply Forall_cons_iff in Hno. destruct Hno as [Hnit Hno].
    cbn [records map error_lines]. unfold own_record at 1. rewrite Hnit.
    destruct (find is_mask it) as [a|]; [|now destruct Hit].
    destruct (IH (Some (mask_language a, mask_thumbnail a, mask_watch a)) Hno)
      as [-> ->]. auto.
Qed.

(** When every item of the container has a mask and no search for a
    labelled block overflows, the call is a map over the items: it
    returns the record of each item's own markup, in the order of the
    items, and prints nothing.  The record of an item is then the same
    on any such page. *)
Theorem extract_masked_is_map (soup c : node) (out : list out_line) :
  find is_container soup = Some c ->
  Forall (fun it => find is_mask it <> None) (find_all is_item c) ->
  Forall (fun it => overflows it = false) (find_all is_item c) ->
  extract_movies_from_soup soup out =
  (Ok (map own_record (find_all is_item c)), out).
Proof.
  intros Hc Hall Hno.
  destruct (extract_with_container soup out Hc) as [Hrecs Hout].
  rewrite (pair_eta _ Hrecs Hout).
  destruct (records_masked None Hall Hno) as [-> ->]. now rewrite app_nil_r.
Qed.




(** ** Texts *)

Lemma lstrip_starts_clean (s : string) : starts_clean (lstrip s) = true.
Proof.
  induction s as [|c r IH]; [reflexivity|]. cbn [lstrip].
  destruct (is_space c) eqn:E; [exact IH|]. cbn. now rewrite E.
Qed.

Lemma rstrip_ends_clean (s : string) : ends_clean (rstrip s) = true.
Proof.
  induction s as [|c r IH]; [reflexivity|]. cbn [rstrip].
  destruct (rstrip r) as [|c' r'] eqn:Er.
  - destruct (is_space c) eqn:E; [reflexivity|]. cbn. now rewrite E.
  - exact IH.
Qed.

Lemma rstrip_starts_clean (s : string) :
  starts_clean s = true -> starts_clean (rstrip s) = true.
Proof.
  destruct s as [|c r]; [reflexivity|]. cbn [rstrip starts_clean]. intros Hc.
  destruct (rstrip r); [|exact Hc].
  destruct (is_space c) eqn:E; [discriminate|]. cbn. now rewrite E.
Qed.

Lemma lstrip_clean (s : string) : starts_clean s = true -> lstrip s = s.
Proof.
  destruct s as [|c r]; [reflexivity|]. cbn. now destruct (is_space c).
Qed.

Lemma rstrip_clean (s : string) : ends_clean s = true -> rstrip s = s.
Proof.
  induction s as [|c r IH]; [reflexivity|]. cbn [ends_clean rstrip].
  destruct r as [|c' r'].
  - cbn. now destruct (is_space c).
  - intros H. now rewrite (IH H).
Qed.

Lemma strip_is_clean (s : string) :
  starts_clean (strip s) = true /\ ends_clean (strip s) = true.
Proof.
  unfold strip. split.
  - apply rstrip_starts_clean, lstrip_starts_clean.
  - apply rstrip_ends_clean.
Qed.

Lemma strip_clean (s : string) :
  starts_clean s = true -> ends_clean s = true -> strip s = s.
Proof.
  intros Hs He. unfold strip. rewrite (lstrip_clean s Hs). now apply rstrip_clean.
Qed.

Lemma starts_clean_app (a b : string) :
  a <> "" -> starts_clean (a ++ b) = starts_clean a.
Proof. destruct a; [congruence|reflexivity]. Qed.

Lemma ends_clean_app (a b : string) :
  b <> "" -> ends_clean (a ++ b) = ends_clean b.
Proof.
  intros Hb. induction a as [|c a IH]; [reflexivity|].
  cbn [append ends_clean]. destruct (a ++ b) eqn:E; [|exact IH].
  destruct a; [cbn in E; congruence|discriminate].
Qed.

Lemma join_trimmed (parts : list string) :
  parts <> [] -> Forall trimmed parts -> trimmed (join " " parts).
Proof.
  intros Hne Hall. induction Hall as [|p rest Hp Hrest IH]; [congruence|].
  cbn [join]. destruct rest as [|q rest]; [exact Hp|].
  assert (Hj : trimmed (join " " (q :: rest))) by (apply IH; discriminate).
  destruct Hp as (Hp0 & Hp1 & Hp2), Hj as (Hj0 & Hj1 & Hj2).
  set (j := join " " (q :: rest)) in *. clearbody j.
  split; [destruct p; [congruence|discriminate]|]. split.
  - now rewrite starts_clean_app.
  - rewrite ends_clean_app.
    + change (" " ++ j) with (String " " j).
      cbn [ends_clean]. destruct j; [congruence|exact Hj2].
    + discriminate.
Qed.

Lemma stripped_strings_trimmed (n : node) : Forall trimmed (stripped_strings n).
Proof.
  unfold stripped_strings. apply Forall_forall. intros p Hp.
  apply filter_In in Hp. destruct Hp as [Hin Ht].
  apply in_flat_map in Hin. destruct Hin as (d & _ & Hd).
  destruct d as [s|]; [|destruct Hd]. destruct Hd as [<-|[]].
  split; [now destruct (strip s)|apply strip_is_clean].
Qed.

Lemma safe_text_some (el : option node) (t : string) :
  safe_text el = Some t -> trimmed t.
Proof.
  unfold safe_text. destruct el as [el|]; [|discriminate].
  destruct (String.eqb (get_text " " el) "") eqn:E; [discriminate|].
  intros [= <-]. apply String.eqb_neq in E.
  unfold get_text in *. apply join_trimmed; [|apply stripped_strings_trimmed].
  intros Hnil. rewrite Hnil in E. now cbn in E.
Qed.

Lemma trimmed_strip (t : string) : trimmed t -> t <> "" /\ strip t = t.
Proof. intros (H0 & H1 & H2). split; [exact H0|now apply strip_clean]. Qed.

(** What [safe_text] returns is never the empty string and has no white
    space at its ends, so that stripping it again changes nothing. *)
Theorem safe_text_trimmed (el : option node) (t : string) :
  safe_text el = Some t -> t <> "" /\ strip t = t.
Proof.
  unfold safe_text. destruct el as [el|]; [|discriminate].
  destruct (String.eqb (get_text " " el) "") eqn:E; [discriminate|].
  intros [= <-]. apply String.eqb_neq in E. split; [exact E|].
  unfold get_text in *. destruct (stripped_strings el) as [|p ps] eqn:Es.
  - cbn in E. congruence.
  - destruct (@join_trimmed (p :: ps)) as (_ & H1 & H2).
    + discriminate.
    + rewrite <- Es. apply stripped_strings_trimmed.
    + now apply strip_clean.
Qed.

Lemma safe_text_trimmed_witness :
  "Release Year: 2021" <> "" /\ strip "Release Year: 2021" = "Release Year: 2021".
Proof.
  apply (@safe_text_trimmed
           (Some (Tag "a" [] [] [NavigableString "  Release Year: 2021 "]))).
  reflexivity.
Defined.

Lemma duration_loop_find (jt_infos : list node) :
  duration_loop jt_infos None =
  match List.find reads_as_duration jt_infos with
  | Some ji => safe_text (Some ji)
  | None => None
  end.
Proof.
  induction jt_infos as [|ji rest IH]; [reflexivity|].
  cbn [duration_loop List.find]. unfold reads_as_duration at 1.
  destruct (safe_text (Some ji)) as [t|] eqn:Et; [|exact IH].
  destruct (trimmed_strip (safe_text_some _ Et)) as [Hne Hstrip].
  assert (Htruthy : truthy t = true) by (destruct t; [congruence|reflexivity]).
  cbn [truthy_opt]. rewrite Htruthy. cbn [andb].
  destruct (Re.search_min t); [|exact IH].
  cbn [parse_duration]. now rewrite Htruthy, Hstrip.
Qed.

(** The duration of an item is the text, as [safe_text] gives it, of
    the first [jt-info] block of the details scope that reads as a number
    of minutes, and [None] when no block does. *)
Theorem duration_is_first_match (hidden : node) :
  item_duration hidden =
  match List.find reads_as_duration (find_all is_info hidden) with
  | Some ji => safe_text (Some ji)
  | None => None
  end.
Proof. apply duration_loop_find. Qed.


Lemma safe_text_not_empty (el : option node) : not_empty (safe_text el).
Proof. intros H. apply safe_text_some in H. now destruct H. Qed.

Lemma por_not_empty (x : option string) : not_empty (por x None).
Proof.
  unfold por, not_empty. destruct x as [[|c s]|]; cbn; discriminate.
Qed.

Lemma title_not_empty (it : node) : not_empty (title_of it).
Proof.
  unfold title_of, value_of, item_mask.
  destruct (find is_mask it) as [a|]; [|discriminate].
  unfold bind, ret, set_watch_link, set_language, set_thumbnail. cbn.
  destruct (find (named "img") a); cbn;
    (destruct (find (named "h2") a); [apply safe_text_not_empty|discriminate]).
Qed.

Lemma mask_values_not_empty (a : node) :
  not_empty (mask_language a) /\ not_empty (mask_thumbnail a) /\
  not_empty (mask_watch a).
Proof.
  unfold mask_language, mask_thumbnail, mask_watch. repeat split.
  - apply safe_text_not_empty.
  - destruct (find (named "img") a); [apply por_not_empty|discriminate].
  - apply por_not_empty.
Qed.

Lemma duration_not_empty (hidden : node) : not_empty (item_duration hidden).
Proof.
  unfold item_duration. rewrite duration_loop_find.
  destruct (List.find _ _); [apply safe_text_not_empty|discriminate].
Qed.

Lemma description_not_empty (hidden : node) :
  not_empty (item_description hidden).
Proof.
  unfold item_description. destruct (find is_desc hidden) as [d|]; [|discriminate].
  destruct (find (named "p") d); apply safe_text_not_empty.
Qed.

Lemma country_not_empty (hidden : node) :
  not_empty (fst (country_of hidden)).
Proof.
  unfold country_of. destruct (find is_country_block hidden) as [b|];
    [|discriminate].
  destruct (find (named "a") b); [apply safe_text_not_empty|discriminate].
Qed.

Lemma contains_not_empty (p s : string) :
  p <> "" -> contains p s = true -> s <> "".
Proof. intros Hp H ->. destruct p; [congruence|discriminate]. Qed.

Lemma year_link_pattern (hidden : node) (u : string) :
  snd (year_of hidden) = Some u -> contains "/release-year/" u = true.
Proof.
  unfold year_of, value_of, item_year.
  destruct (find is_year_link hidden) as [y|] eqn:Hy; [|discriminate].
  unfold bind, try_except, lift, ret.
  assert (Hu : get "href" y = Some u -> contains "/release-year/" u = true).
  { intros Hg. apply find_in in Hy. destruct Hy as (_ & _ & Hy).
    unfold is_year_link, attr_matches in Hy. rewrite Hg in Hy.
    now apply andb_true_iff in Hy. }
  destruct (re_search_4digits _) as [m|]; [|exact Hu].
  destruct (group0 m) as [g|]; [|exact Hu].
  destruct (Py.int g); exact Hu.
Qed.

Lemma genres_not_empty (hidden : node) :
  Forall (fun g => g <> "") (fst (genres_of hidden)).
Proof.
  destruct (genres_of_pairs hidden) as (ps & -> & Hps). cbn.
  apply Forall_forall. intros g Hg. apply in_map_iff in Hg.
  destruct Hg as ([g' u] & <- & Hin). cbn.
  destruct (Hps g' u Hin) as (a & _ & _ & Ht & _).
  apply safe_text_some in Ht. now destruct Ht.
Qed.

Lemma movie_of_texts (it : node) (l t w : option string) :
  not_empty l -> not_empty t -> not_empty w ->
  texts_not_empty (movie_of it l t w).
Proof.
  intros Hl Ht Hw. unfold texts_not_empty, movie_of. cbn.
  repeat split; auto.
  - apply title_not_empty.
  - apply duration_not_empty.
  - apply description_not_empty.
  - apply country_not_empty.
  - intros H. apply year_link_pattern in H. discriminate H.
  - apply genres_not_empty.
Qed.

Lemma records_texts (items : list node) :
  forall last,
  match last with
  | Some (l, t, w) => not_empty l /\ not_empty t /\ not_empty w
  | None => True
  end ->
  Forall texts_not_empty (records last items).
Proof.
  induction items as [|it rest IH]; intros last Hlast; cbn [records];
    [constructor|].
  destruct (find is_mask it) as [a|].
  - destruct (mask_values_not_empty a) as (Hl & Ht & Hw).
    destruct (overflows it); [apply IH; auto|].
    constructor; [now apply movie_of_texts|]. apply IH. auto.
  - destruct last as [[[l t] w]|]; [|now apply IH].
    destruct Hlast as (Hl & Ht & Hw).
    destruct (overflows it); [now apply IH|].
    constructor; [now apply movie_of_texts|]. now apply IH.
Qed.

(** In every record that a call returns, a text is [None] or a string
    that is not empty: the title, language, duration, thumbnail,
    description, country, watch link and year link, and every genre. *)
Theorem returned_texts_not_empty (soup : node) (out out' : list out_line)
  (recs : list Movie.t) :
  extract_movies_from_soup soup out = (Ok recs, out') ->
  Forall texts_not_empty recs.
Proof.
  destruct (find is_container soup) as [c|] eqn:Hc.
  - destruct (extract_with_container soup out Hc) as [Hrecs _].
    intros H. rewrite H in Hrecs. cbn in Hrecs. injection Hrecs as ->.
    now apply records_texts.
  - rewrite extract_eq, Hc. intros [= <- _]. constructor.
Qed.




(** ** Numbers *)

Lemma span_digits_spec (s : string) :
  s = (fst (Re.span_digits s) ++ snd (Re.span_digits s))%string /\
  all_digits (fst (Re.span_digits s)) = true /\
  no_digit_ahead (snd (Re.span_digits s)) = true.
Proof.
  induction s as [|c r (IH1 & IH2 & IH3)]; [cbn; auto|].
  cbn [Re.span_digits]. destruct (is_digit c) eqn:E.
  - destruct (Re.span_digits r) as [d rest]. cbn in *.
    rewrite E, IH2. repeat split; auto. now f_equal.
  - cbn. rewrite E. auto.
Qed.

Lemma span_digits_app (d rest : string) :
  all_digits d = true -> no_digit_ahead rest = true ->
  Re.span_digits (d ++ rest) = (d, rest).
Proof.
  intros Hd Hrest. induction d as [|c d IH].
  - cbn. destruct rest as [|c r]; [reflexivity|].
    cbn in *. now destruct (is_digit c).
  - cbn in Hd. apply andb_true_iff in Hd. destruct Hd as [Hc Hd].
    cbn. rewrite Hc, (IH Hd). reflexivity.
Qed.

Lemma append_empty (s : string) : (s ++ "")%string = s.
Proof. induction s; cbn; congruence. Qed.

Lemma span_digits_all (d : string) :
  all_digits d = true -> Re.span_digits d = (d, "").
Proof.
  intros Hd. pose proof (span_digits_app d "" Hd eq_refl) as H.
  now rewrite append_empty in H.
Qed.

Lemma digits_value_bound (s : string) (acc : Z) :
  (0 <= acc)%Z -> (0 <= Py.digits_value acc s)%Z.
Proof.
  revert acc. induction s as [|c r IH]; intros acc Hacc; [exact Hacc|].
  cbn. apply IH. unfold digit_value. lia.
Qed.

(** [float] accepts every string that the pattern of [parse_imdb]
    matches, and gives a number that is not negative. *)
Lemma float_of_match (t g : string) :
  Re.search_decimal t = Some g -> exists q, Py.float g = Ok q /\ (0 <= q)%Q.
Proof.
  induction t as [|c r IH]; [discriminate|].
  cbn [Re.search_decimal]. destruct (is_digit c) eqn:Ec; [|exact IH].
  clear IH. destruct (span_digits_spec (String c r)) as (_ & Hd & Hrest).
  destruct (Re.span_digits (String c r)) as [d rest] eqn:Es. cbn in Hd, Hrest.
  assert (Hne : d <> "").
  { cbn in Es. rewrite Ec in Es. destruct (Re.span_digits r).
    injection Es as <- _. discriminate. }
  assert (Hint : forall s, all_digits s = true -> s <> "" ->
            exists q, Py.float s = Ok q /\ (0 <= q)%Q).
  { intros s Hs Hs0. unfold Py.float.
    rewrite (span_digits_all s Hs).
    destruct s as [|a s']; [congruence|].
    eexists. split; [reflexivity|].
    unfold Qle. cbn [Qnum Qden inject_Z]. 
    assert (H := digits_value_bound (String a s') (acc:=0) ltac:(lia)). lia. }
  assert (Hplain : Some d = Some g -> exists q, Py.float g = Ok q /\ (0 <= q)%Q).
  { intros [= <-]. now apply Hint. }
  destruct rest as [|c' rest']; [exact Hplain|].
  destruct (Ascii.eqb c' ".") eqn:Edot.
  2:{ destruct c' as [[] [] [] [] [] [] [] []]; try exact Hplain;
      discriminate Edot. }
  apply Ascii.eqb_eq in Edot. subst c'.
  destruct (span_digits_spec rest') as (_ & Hf & Hrest').
  destruct (Re.span_digits rest') as [f rest''] eqn:Ef. cbn in Hf, Hrest'.
  destruct f as [|a f']; [exact Hplain|].
  intros [= <-]. unfold Py.float.
  change (d ++ "." ++ String a f')%string with (d ++ String "." (String a f'))%string.
  rewrite (span_digits_app d (String "." (String a f')) Hd eq_refl).
  destruct d as [|a0 d']; [congruence|].
  rewrite (span_digits_all (String a f') Hf).
  eexists. split; [reflexivity|].
  assert (H1 := digits_value_bound (String a0 d') (acc:=0) ltac:(lia)).
  assert (H2 := digits_value_bound (String a f') (acc:=0) ltac:(lia)).
  unfold Qle, Qplus. cbn [Qnum Qden inject_Z]. nia.
Qed.

Lemma search_decimal_none (t : string) :
  Re.search_decimal t = None <-> has_digit t = false.
Proof.
  induction t as [|c r IH]; [cbn; tauto|].
  cbn [Re.search_decimal has_digit]. destruct (is_digit c) eqn:Ec.
  - cbn [orb]. split; [|discriminate]. intros H. exfalso.
    destruct (Re.span_digits (String c r)) as [d rest].
    destruct rest as [|c' rest']; [discriminate H|].
    destruct c' as [[] [] [] [] [] [] [] []]; try discriminate H.
    destruct (Re.span_digits rest') as [[|? ?] ?]; discriminate H.
  - exact IH.
Qed.

(** [parse_imdb] always ends normally: its [except] is never reached.
    It returns [None] exactly when there is no text or the text has no
    digit in it, and the rating it returns is never negative. *)
Theorem parse_imdb_total (text : option string) (s : frame) :
  exists v,
    parse_imdb text s = (Ok v, s) /\
    (v = None <-> forall t, text = Some t -> has_digit t = false) /\
    (forall q, v = Some q -> (0 <= q)%Q).
Proof.
  unfold parse_imdb. destruct text as [t|].
  2:{ exists None. unfold ret. repeat split; try discriminate; auto. }
  destruct (truthy t) eqn:Et.
  2:{ exists None. destruct t; [|discriminate]. unfold ret.
      repeat split; try discriminate. intros _ t [= <-]. reflexivity. }
  destruct (Re.search_decimal t) as [g|] eqn:Eg.
  - destruct (float_of_match t Eg) as (q & Hq & Hpos).
    exists (Some q). unfold try_except, bind, lift, ret. rewrite Hq.
    split; [reflexivity|]. split.
    + split; [discriminate|]. intros H. specialize (H t eq_refl).
      apply search_decimal_none in H. congruence.
    + intros q' [= <-]. exact Hpos.
  - exists None. unfold ret. split; [reflexivity|]. split; [|discriminate].
    split; [|reflexivity]. intros _ t' [= <-]. now apply search_decimal_none.
Qed.

Lemma parse_imdb_total_witness :
  exists v,
    parse_imdb (Some "IMDb: 7.5/10") frame0 = (Ok v, frame0) /\
    v <> None /\ (forall q, v = Some q -> (0 <= q)%Q).
Proof.
  destruct (parse_imdb_total (Some "IMDb: 7.5/10") frame0) as (v & Hv & Hnone & Hpos).
  exists v. split; [exact Hv|]. split; [|exact Hpos].
  intros H. destruct Hnone as [Hnone _].
  specialize (Hnone H _ eq_refl). discriminate Hnone.
Defined.

Lemma digit_facts (c : ascii) :
  is_digit c = true ->
  Py.is_int_space c = false /\ Ascii.eqb c "_" = false /\
  (0 <= digit_value c <= 9)%Z.
Proof.
  destruct c as [[] [] [] [] [] [] [] []]; intros H; vm_compute in H;
    try discriminate H; repeat split; try reflexivity;
    vm_compute; discriminate.
Qed.

(** [int] reads four digits as a number from 0 to 9999. *)
Lemma int_of_four_digits (t g : string) :
  Re.search_4digits t = Some g ->
  exists z, Py.int g = Ok z /\ (0 <= z <= 9999)%Z.
Proof.
  revert g. induction t as [|a r IH]; intros g; [discriminate|].
  destruct r as [|b [|c [|d rest]]]; try discriminate.
  cbn [Re.search_4digits].
  destruct (is_digit a && is_digit b && is_digit c && is_digit d) eqn:E.
  - intros [= <-]. apply andb_true_iff in E. destruct E as [E Hd].
    apply andb_true_iff in E. destruct E as [E Hc].
    apply andb_true_iff in E. destruct E as [Ha Hb].
    destruct (digit_facts _ Ha) as (Sa & Ua & Va).
    destruct (digit_facts _ Hb) as (Sb & Ub & Vb).
    destruct (digit_facts _ Hc) as (Sc & Uc & Vc).
    destruct (digit_facts _ Hd) as (Sd & Ud & Vd).
    unfold Py.int. cbv zeta.
    assert (Hskip :
      Py.skip_right (Py.skip_left (String a (String b (String c (String d ""))))) =
      String a (String b (String c (String d "")))).
    { cbn [Py.skip_left]. rewrite Sa. cbn [Py.skip_right]. now rewrite Sd. }
    assert (Hcount :
      (Py.max_str_digits <?
       Py.digit_count (String a (String b (String c (String d "")))))%nat = false).
    { cbn [Py.digit_count]. rewrite Ha, Hb, Hc, Hd. reflexivity. }
    rewrite Hskip, Hcount. clear Hskip Hcount.
    assert (Hdigits :
      Py.int_digits Py.AtStart 0 (String a (String b (String c (String d "")))) =
      Some ((((0 * 10 + digit_value a) * 10 + digit_value b) * 10
             + digit_value c) * 10 + digit_value d)%Z).
    { cbn [Py.int_digits]. now rewrite Ha, Hb, Hc, Hd. }
    destruct a as [[] [] [] [] [] [] [] []]; try discriminate Ha;
      rewrite Hdigits; (eexists; split; [reflexivity|]); cbn in Va |- *; lia.
  - apply IH.
Qed.

(** The year of a details scope is a number from 0 to 9999, and it comes
    with the link it was read from: when the year is there, so is the
    year link, and its destination holds [/release-year/]. *)
Lemma year_of_range (hidden : node) (z : Z) :
  fst (year_of hidden) = Some z ->
  (0 <= z <= 9999)%Z /\
  exists u, snd (year_of hidden) = Some u /\
            contains "/release-year/" u = true.
Proof.
  intros Hz.
  assert (Hlink : exists u, snd (year_of hidden) = Some u).
  { revert Hz. unfold year_of, value_of, item_year.
    destruct (find is_year_link hidden) as [y|] eqn:Hy; [|discriminate].
    apply find_in in Hy. destruct Hy as (_ & _ & Hy).
    unfold is_year_link, attr_matches in Hy.
    destruct (get "href" y) as [u|]; [|now rewrite andb_false_r in Hy].
    intros _. exists u. unfold bind, try_except, lift, ret.
    destruct (re_search_4digits _) as [m|]; [|reflexivity].
    destruct (group0 m) as [g|]; [|reflexivity].
    destruct (Py.int g); reflexivity. }
  split.
  - revert Hz. unfold year_of, value_of, item_year.
    destruct (find is_year_link hidden) as [y|]; [|discriminate].
    unfold bind, try_except, lift, ret, re_search_4digits.
    destruct (safe_text (Some y)) as [t|]; [|discriminate].
    destruct (Re.search_4digits t) as [g|] eqn:Eg; [|discriminate].
    cbn [group0]. destruct (int_of_four_digits t Eg) as (z' & -> & Hz').
    cbn. intros [= <-]. exact Hz'.
  - destruct Hlink as (u & Hu). exists u. split; [exact Hu|].
    exact (year_link_pattern hidden Hu).
Qed.

(** In every record that a call returns, a year is a number from 0 to
    9999 and comes with its link: [links.year] is there and its
    destination holds [/release-year/]. *)
Theorem returned_years_in_range (soup : node) (out out' : list out_line)
  (recs : list Movie.t) :
  extract_movies_from_soup soup out = (Ok recs, out') ->
  Forall (fun r => forall z, Movie.year r = Some z ->
            (0 <= z <= 9999)%Z /\
            exists u, Links.year (Movie.links r) = Some u /\
                      contains "/release-year/" u = true) recs.
Proof.
  intros H. apply extract_records in H.
  eapply Forall_impl; [|exact H]. cbv beta.
  intros r (it & _ & l & t & w & ->). cbn. apply year_of_range.
Qed.




(** ** Attempts *)

Lemma failed_attempts_le (net : nat -> http_outcome) (n base : nat) :
  (failed_attempts net base n <= n)%nat.
Proof.
  revert base. induction n as [|n IH]; intros base; cbn; [lia|].
  destruct (page_of (net base)); [lia|]. specialize (IH (S base)). lia.
Qed.

Lemma fetch_loop_trace (url : string) (backoff : Q) (m : nat) :
  (0 <= backoff)%Q ->
  (Qmult backoff (inject_Z (Z.of_nat m)) <= clock_max)%Q ->
  forall (n a : nat) (w : World.t),
  (a + n <= m)%nat ->
  let base := length (World.requests w) in
  let f := failed_attempts (World.net w) base n in
  fetch_loop url backoff (map Z.of_nat (seq a n)) w =
  (Ok (if (f <? n)%nat then page_of (World.net w (base + f)) else None),
   after_fetch url backoff a n f w).
Proof.
  intros Hb Hmax n. induction n as [|n IH]; intros a w Ham; cbv zeta.
  - cbn. unfold ret, after_fetch, delays. cbn. rewrite !app_nil_r.
    now destruct w.
  - cbn [seq map failed_attempts]. rewrite fetch_loop_cons. cbv zeta.
    destruct (page_of (World.net w (length (World.requests w)))) as [t|] eqn:Hp.
    + unfold after_fetch, delays. cbn. rewrite Nat.add_0_r, Hp, !app_nil_r.
      reflexivity.
    + rewrite (@delay_in_clock backoff m a Hb Hmax) by lia.
      rewrite (delay_not_negative a Hb). rewrite IH by lia. clear IH.
      cbn [World.net World.requests World.slept World.stdout World.files].
      rewrite length_app. cbn [length]. rewrite Nat.add_1_r.
      set (f := failed_attempts (World.net w) (S (length (World.requests w))) n).
      assert (Hlt : (S f <? S n)%nat = (f <? n)%nat) by reflexivity.
      rewrite Hlt.
      replace (S (length (World.requests w)) + f)%nat
        with (length (World.requests w) + S f)%nat by lia.
      f_equal. unfold after_fetch, delays. rewrite Hlt.
      cbn [World.net World.requests World.slept World.stdout World.files].
      rewrite length_app. cbn [length seq map].
      rewrite <- !app_assoc. cbn [app].
      f_equal.
      * destruct (f <? n)%nat; reflexivity.
      * rewrite !Nat.add_0_r. do 2 f_equal.
        rewrite <- seq_shift, map_map. apply map_ext. intros j.
        do 2 f_equal; lia.
Qed.









Section RunTrace.

Variable parse : string -> node.

(** A run requests the URL of the page and nothing else, once more than
    attempts have failed and three times at most; it sleeps [1 * k]
    seconds after the [k]-th failed attempt; what it prints starts with
    the lines of the failed attempts; and it ends normally. *)
Theorem run_requests_and_delays (w : World.t) :
  let base := length (World.requests w) in
  let f := failed_attempts (World.net w) base 3 in
  exists w' tail,
    main parse w = (Ok tt, w') /\
    (f <= 3)%nat /\
    World.net w' = World.net w /\
    World.requests w' =
      (World.requests w ++ repeat URL (if (f <? 3)%nat then S f else f))%list /\
    World.slept w' =
      (World.slept w ++
       map (fun k => Qmult 1 (inject_Z (Z.of_nat k))) (seq 1 f))%list /\
    World.stdout w' =
      (World.stdout w ++
       map (fun j => failure_line (Z.of_nat j) (World.net w (base + j)))
           (seq 0 f) ++ tail)%list.
Proof.
  cbv zeta.
  assert (Hle := failed_attempts_le (World.net w) 3 (length (World.requests w))).
  assert (Hfetch := @fetch_loop_trace URL 1%Q 3 one_not_negative three_in_clock
                      3%nat 0%nat w (Nat.le_refl 3)).
  cbv zeta in Hfetch. fold (range 3) in Hfetch.
  change (fetch_loop URL 1 (range 3)) with (fetch_html URL 3 1) in Hfetch.
  unfold after_fetch, delays in Hfetch.
  replace (map (fun i => Qmult 1 (inject_Z (Z.of_nat i + 1))) (seq 0
             (failed_attempts (World.net w) (length (World.requests w)) 3)))
    with (map (fun k => Qmult 1 (inject_Z (Z.of_nat k))) (seq 1
             (failed_attempts (World.net w) (length (World.requests w)) 3)))
    in Hfetch
    by (rewrite <- seq_shift, map_map; apply map_ext; intros i;
        do 2 f_equal; lia).
  rewrite (main_after_fetch parse w Hfetch).
  set (f := failed_attempts (World.net w) (length (World.requests w)) 3) in *.
  clearbody f.
  destruct (if (f <? 3)%nat then _ else None) as [[|c t]|].
  - eexists. exists [FailedToFetch URL]. split; [reflexivity|].
    cbn [World.net World.requests World.slept World.stdout].
    repeat split; try assumption. now rewrite <- app_assoc.
  - cbn [World.net World.requests World.slept World.stdout World.files].
    destruct (extract_movies_from_soup _ _) as [r out] eqn:Hex.
    rewrite extract_eq in Hex.
    destruct (find is_container (parse (String c t))) as [cn|].
    + cbv zeta in Hex.
      destruct (loop_movies (find_all is_item cn)
                  (start (World.stdout w ++
                     map (fun j => failure_line (Z.of_nat j)
                            (World.net w (length (World.requests w) + j)))
                         (seq 0 f))))
        as (recs & errs & _ & Ho & _).
      injection Hex as <- <-. rewrite Ho. cbn [stdout start].
      eexists.
      match goal with |- context [WroteMovies ?k _] =>
        exists (map ErrorParsingItem errs ++ [WroteMovies k OUTPUT_FILE])%list
      end.
      split; [reflexivity|].
      cbn [World.net World.requests World.slept World.stdout].
      repeat split; try assumption. now rewrite <- !app_assoc.
    + injection Hex as <- <-.
      eexists. exists [WroteMovies 0 OUTPUT_FILE]. split; [reflexivity|].
      cbn [World.net World.requests World.slept World.stdout].
      repeat split; try assumption. now rewrite <- !app_assoc.
  - eexists. exists [FailedToFetch URL]. split; [reflexivity|].
    cbn [World.net World.requests World.slept World.stdout].
    repeat split; try assumption. now rewrite <- app_assoc.
Qed.

End RunTrace.

(** ** URLs of the genres *)

Lemma fallback_pairs_pattern (hidden : node) (g : string) (u : option string) :
  In (g, u) (first_pairs (link_pairs (find_all is_genre_link hidden))) ->
  exists v, u = Some v /\ contains "/genre/" v = true.
Proof.
  intros H. apply in_first_pairs, in_link_pairs in H.
  destruct H as (a & Ha & _ & Hu). apply find_all_in in Ha.
  destruct Ha as (_ & _ & Ha). unfold is_genre_link, attr_matches in Ha.
  rewrite Hu in Ha. apply andb_true_iff in Ha. destruct Ha as [_ Ha].
  destruct u as [v|]; [|discriminate]. eauto.
Qed.

(** When the details scope has no genre block, every URL of
    [links.genres] is there (none is [None]) and holds [/genre/], and no
    genre comes twice. *)
Theorem fallback_genre_urls (it : node) (s s' : frame) :
  item_try it s = (Ok tt, s') ->
  find is_genre_block (item_hidden it) = None ->
  exists r,
    movies s' = (movies s ++ [r])%list /\
    NoDup (Movie.genres r) /\
    Forall (fun u => exists v, u = Some v /\ contains "/genre/" v = true)
           (Links.genres (Movie.links r)).
Proof.
  intros H Hblock. apply item_try_record in H. destruct H as (l & t & w & ->).
  exists (movie_of it l t w). split; [reflexivity|]. cbn.
  rewrite genres_of_eq, Hblock. cbn. split; [apply first_pairs_nodup|].
  apply Forall_forall. intros u Hu. apply in_map_iff in Hu.
  destruct Hu as ([g u'] & <- & Hin). cbn.
  apply (fallback_pairs_pattern _ _ _ Hin).
Qed.




(** ** Labelled blocks *)

Lemma lower_keeps_space (c : ascii) : is_space (lower_ascii c) = is_space c.
Proof. destruct c as [[] [] [] [] [] [] [] []]; reflexivity. Qed.

Lemma lower_lstrip (s : string) : lower (lstrip s) = lstrip (lower s).
Proof.
  induction s as [|c r IH]; [reflexivity|].
  cbn [lstrip lower]. rewrite lower_keeps_space.
  destruct (is_space c); [exact IH|reflexivity].
Qed.

Lemma lower_rstrip (s : string) : lower (rstrip s) = rstrip (lower s).
Proof.
  induction s as [|c r IH]; [reflexivity|].
  cbn [rstrip lower]. rewrite <- IH, lower_keeps_space.
  destruct (rstrip r); cbn [lower]; [|reflexivity].
  destruct (is_space c); reflexivity.
Qed.

Lemma lower_strip (s : string) : lower (strip s) = strip (lower s).
Proof. unfold strip. now rewrite lower_rstrip, lower_lstrip. Qed.

Lemma contains_lstrip (p s : string) :
  p <> "" -> starts_clean p = true ->
  contains p s = true -> contains p (lstrip s) = true.
Proof.
  intros Hp Hclean. induction s as [|c r IH]; [auto|].
  cbn [lstrip]. destruct (is_space c) eqn:Ec; [|auto].
  cbn [contains]. destruct p as [|a p']; [congruence|].
  cbn [starts_with]. destruct (Ascii.eqb a c) eqn:Eac.
  - apply Ascii.eqb_eq in Eac. subst a. cbn in Hclean.
    rewrite Ec in Hclean. discriminate.
  - cbn [andb orb]. exact IH.
Qed.

Lemma starts_with_rstrip (p : string) :
  forall s, p <> "" -> ends_clean p = true ->
  starts_with p s = true -> starts_with p (rstrip s) = true.
Proof.
  induction p as [|a p' IH]; intros s Hp Hclean; [congruence|].
  destruct s as [|b s']; [discriminate|].
  cbn [starts_with rstrip]. intros H. apply andb_true_iff in H.
  destruct H as [Hab Hrest]. destruct p' as [|a' p''].
  - cbn in Hclean. apply Ascii.eqb_eq in Hab. subst b.
    destruct (rstrip s'); cbn [starts_with].
    + destruct (is_space a); [discriminate|].
      cbn. now rewrite Ascii.eqb_refl.
    + now rewrite Ascii.eqb_refl.
  - assert (Hrec : starts_with (String a' p'') (rstrip s') = true).
    { apply IH; [discriminate|exact Hclean|exact Hrest]. }
    destruct (rstrip s') as [|c r']; [discriminate Hrec|].
    cbn [starts_with] in *. now rewrite Hab, Hrec.
Qed.

Lemma contains_rstrip (p s : string) :
  p <> "" -> ends_clean p = true ->
  contains p s = true -> contains p (rstrip s) = true.
Proof.
  intros Hp Hclean. induction s as [|c r IH]; [auto|].
  cbn [contains]. intros H. apply orb_true_iff in H. destruct H as [H|H].
  - apply (@starts_with_rstrip p (String c r) Hp Hclean) in H.
    destruct (rstrip (String c r)); cbn [contains]; now rewrite H.
  - specialize (IH H). cbn [rstrip].
    destruct (rstrip r) as [|c' r'].
    + destruct p; [congruence|discriminate IH].
    + cbn [contains] in *. rewrite IH. apply orb_true_r.
Qed.

Lemma icontains_strip (p s : string) :
  lower p <> "" -> starts_clean (lower p) = true -> ends_clean (lower p) = true ->
  icontains p s = true -> icontains p (strip s) = true.
Proof.
  unfold icontains. intros Hp Hs He H. rewrite lower_strip. unfold strip.
  apply contains_rstrip; auto. now apply contains_lstrip.
Qed.

(** Below a tag whose [string] is [t], every tag has the text [t]. *)
Lemma string_chain (b : node) (t : string) :
  is_tag b = true -> string_ b = Some t ->
  forall a, a = b \/ In a (descendants b) -> is_tag a = true ->
  stripped_strings a = filter truthy [strip t].
Proof.
  induction b as [s|nm cl at_ cs IH] using node_induction; [discriminate|].
  intros _ Hs. destruct cs as [|c [|c' cs]]; try discriminate Hs.
  cbn [string_] in Hs. inversion IH as [|? ? IHc _]. subst. clear IH.
  assert (Hb : stripped_strings (Tag nm cl at_ [c]) =
               match c with
               | NavigableString s => filter truthy [strip s]
               | Tag _ _ _ _ => stripped_strings c
               end).
  { unfold stripped_strings. cbn [descendants flat_map].
    rewrite app_nil_r. cbn [flat_map]. now destruct c. }
  intros a [->|Ha] Hta.
  - rewrite Hb. destruct c as [s|nm' cl' at' cs'].
    + cbn in Hs. congruence.
    + apply IHc; auto.
  - apply in_descendants_tag in Ha. destruct Ha as (c0 & [<-|[]] & Ha).
    destruct c as [s|nm' cl' at' cs']; [|apply IHc; auto].
    destruct Ha as [->|[]]. discriminate Hta.
Qed.

(** The text of a tag below a block is the stripped [string] of the
    block. *)
Lemma text_below_block (b a : node) (t g : string) :
  is_tag b = true -> string_ b = Some t ->
  In a (descendants b) -> is_tag a = true ->
  safe_text (Some a) = Some g -> g = strip t.
Proof.
  intros Hb Hs Ha Hta. unfold safe_text, get_text.
  rewrite (@string_chain b t Hb Hs a (or_intror Ha) Hta). cbn [filter].
  destruct (truthy (strip t)); cbn [join].
  - destruct (String.eqb (strip t) ""); [discriminate|]. congruence.
  - discriminate.
Qed.

Lemma block_string (label : string) (hidden b : node) :
  find (fun n => named "div" n && string_matches (icontains label) n) hidden
    = Some b ->
  is_tag b = true /\ exists t, string_ b = Some t /\ icontains label t = true.
Proof.
  intros H. apply find_in in H. destruct H as (_ & Htag & H).
  split; [exact Htag|]. apply andb_true_iff in H. destruct H as [_ H].
  unfold string_matches in H. destruct b; [discriminate|].
  destruct (string_ _) as [t|]; [|discriminate]. eauto.
Qed.

(** A country that is not [None] holds the label itself, [Country:] in
    some letter case: the link that gives the country is inside a block
    whose only text holds the label, so its text is that same text. *)
Theorem country_holds_label (it : node) (s s' : frame) :
  item_try it s = (Ok tt, s') ->
  exists r,
    movies s' = (movies s ++ [r])%list /\
    forall c, Movie.country r = Some c -> icontains "Country:" c = true.
Proof.
  intros H. apply item_try_record in H. destruct H as (l & t & w & ->).
  exists (movie_of it l t w). split; [reflexivity|]. cbn.
  unfold country_of.
  destruct (find is_country_block (item_hidden it)) as [b|] eqn:Hb;
    [|discriminate].
  destruct (@block_string "Country:" _ _ Hb) as (Htag & txt & Hs & Hl).
  destruct (find (named "a") b) as [a|] eqn:Ha; [|discriminate].
  cbn. intros c Hc. apply find_in in Ha. destruct Ha as (Ha & Hta & _).
  rewrite (@text_below_block b a txt c Htag Hs Ha Hta Hc).
  apply icontains_strip; auto. discriminate.
Qed.


(** When the details scope has a genre block, every genre holds the
    label itself, [Genre:] in some letter case, and all the genres are
    the same text: the links of the block are inside its only text. *)
Theorem block_genres_hold_label (it : node) (s s' : frame) (b : node) :
  item_try it s = (Ok tt, s') ->
  find is_genre_block (item_hidden it) = Some b ->
  exists r,
    movies s' = (movies s ++ [r])%list /\
    Forall (fun g => icontains "Genre:" g = true) (Movie.genres r) /\
    forall g1 g2, In g1 (Movie.genres r) -> In g2 (Movie.genres r) -> g1 = g2.
Proof.
  intros H Hb. apply item_try_record in H. destruct H as (l & t & w & ->).
  exists (movie_of it l t w). split; [reflexivity|]. cbn.
  rewrite genres_of_eq, Hb. cbn.
  destruct (@block_string "Genre:" _ _ Hb) as (Htag & txt & Hs & Hl).
  assert (Hall : forall g, In g (map fst (link_pairs (find_all (named "a") b))) ->
                           g = strip txt).
  { intros g Hg. apply in_map_iff in Hg. destruct Hg as ([g' u] & <- & Hin).
    apply in_link_pairs in Hin. destruct Hin as (a & Ha & Ht & _).
    apply find_all_in in Ha. destruct Ha as (Ha & Hta & _).
    exact (@text_below_block b a txt g' Htag Hs Ha Hta Ht). }
  split.
  - apply Forall_forall. intros g Hg. rewrite (Hall g Hg).
    apply icontains_strip; auto. discriminate.
  - intros g1 g2 H1 H2. now rewrite (Hall g1 H1), (Hall g2 H2).
Qed.




(** ** More on durations *)

(** [parse_duration] gives [None] for no text and for the empty text
    only; for a text of white space alone it gives the empty string, not
    [None]; and what it gives has no white space at its ends. *)
Theorem parse_duration_edges (text : option string) :
  (parse_duration text = None <-> text = None \/ text = Some "") /\
  (forall t, text = Some t -> t <> "" -> parse_duration text = Some (strip t)) /\
  (forall d, parse_duration text = Some d -> strip d = d).
Proof.
  unfold parse_duration. destruct text as [[|c t]|]; cbn [truthy].
  - repeat split; auto; try discriminate. intros t [= <-] H. congruence.
  - repeat split; try discriminate.
    + intros [H|H]; discriminate H.
    + intros t' [= <-] _. reflexivity.
    + intros d [= <-]. destruct (strip_is_clean (String c t)) as [H1 H2].
      now apply strip_clean.
  - repeat split; auto; discriminate.
Qed.

Lemma parse_duration_edges_witness :
  parse_duration (Some "   ") = Some "" /\
  parse_duration (Some " 77 min ") = Some "77 min".
Proof.
  destruct (parse_duration_edges (Some "   ")) as (_ & H1 & _).
  destruct (parse_duration_edges (Some " 77 min ")) as (_ & H2 & _).
  split.
  - apply (H1 "   " eq_refl). discriminate.
  - apply (H2 " 77 min " eq_refl). discriminate.
Defined.

Lemma starts_with_contains (p x : string) :
  starts_with p (lstrip x) = true -> contains p x = true.
Proof.
  induction x as [|c r IH]; cbn [lstrip contains].
  - intros H. now rewrite H.
  - destruct (is_space c).
    + intros H. rewrite (IH H). apply orb_true_r.
    + intros H. now rewrite H.
Qed.

Lemma search_min_sound (s : string) :
  Re.search_min s = true -> has_digit s = true /\ icontains "min" s = true.
Proof.
  unfold icontains. change (lower "min") with "min".
  induction s as [|c r IH]; [discriminate|].
  cbn [Re.search_min has_digit lower contains]. intros H.
  apply orb_true_iff in H. destruct H as [H|H].
  - apply andb_true_iff in H. destruct H as [Hc Hm]. rewrite Hc. split; [reflexivity|].
    rewrite lower_lstrip in Hm. rewrite (starts_with_contains _ _ Hm).
    apply orb_true_r.
  - destruct (IH H) as [Hd Hm]. rewrite Hd, Hm. split; apply orb_true_r.
Qed.

(** In every record that a call returns, a duration holds a digit and
    the letters [min] in some letter case, and it is the text of a
    [jt-info] block of the page. *)
Theorem returned_durations_read_as_minutes (soup : node)
  (out out' : list out_line) (recs : list Movie.t) :
  extract_movies_from_soup soup out = (Ok recs, out') ->
  Forall (fun r => forall d, Movie.duration r = Some d ->
            has_digit d = true /\ icontains "min" d = true /\
            exists ji, In ji (descendants soup) /\ is_info ji = true /\
                       safe_text (Some ji) = Some d) recs.
Proof.
  intros H. apply extract_records in H.
  eapply Forall_impl; [|exact H]. cbv beta.
  intros r (it & Hit & l & t & w & ->). cbn. intros d.
  unfold item_duration. rewrite duration_loop_find.
  destruct (List.find _ _) as [ji|] eqn:Hji; [|discriminate].
  apply find_some in Hji. destruct Hji as [Hin Hread]. intros Hd.
  unfold reads_as_duration in Hread. rewrite Hd in Hread.
  destruct (search_min_sound d Hread) as [H1 H2].
  split; [exact H1|]. split; [exact H2|]. exists ji.
  apply find_all_in in Hin. destruct Hin as (Hin & _ & Hinfo).
  split; [|auto].
  apply (descendants_trans ji it soup); [|exact Hit].
  now apply item_hidden_below.
Qed.


(** ** More on attempts *)

(** With no try to make ([tries] is zero or negative), [fetch_html]
    returns [None] at once: no request, no delay, nothing printed,
    whatever the delay is. *)
Theorem fetch_html_no_tries (url : string) (tries : Z) (backoff : Q)
  (w : World.t) :
  (tries <= 0)%Z -> fetch_html url tries backoff w = (Ok None, w).
Proof.
  intros H. unfold fetch_html, range.
  replace (Z.to_nat tries) with 0%nat by lia. reflexivity.
Qed.

Lemma fetch_html_no_tries_witness :
  fetch_html URL (-2) (-1)%Q Sample.third_time = (Ok None, Sample.third_time).
Proof. apply fetch_html_no_tries. lia. Defined.

(** ** What the mask gives *)

Lemma title_of_maskless (it : node) : find is_mask it = None -> title_of it = None.
Proof. intros H. unfold title_of, value_of, item_mask. now rewrite H. Qed.

Lemma records_masked_by (items : list node) :
  forall (before : list node) (last : option (option string * option string * option string)),
  match last with
  | Some v =>
      exists it0 a, In it0 before /\ find is_mask it0 = Some a /\
                    v = (mask_language a, mask_thumbnail a, mask_watch a)
  | None => True
  end ->
  Forall (fun r => exists it it0 a,
            In it items /\ In it0 (before ++ items) /\
            find is_mask it0 = Some a /\ masked_by a r it)
         (records last items).
Proof.
  induction items as [|it rest IH]; intros before last Hlast; cbn [records];
    [constructor|].
  assert (Hshift : forall P : Movie.t -> node -> node -> node -> Prop,
            Forall (fun r => exists x x0 a, In x rest /\
                      In x0 ((before ++ [it]) ++ rest) /\ P r x x0 a)
                   (records (match find is_mask it with
                             | Some a => Some (mask_language a, mask_thumbnail a,
                                               mask_watch a)
                             | None => last
                             end) rest) ->
            Forall (fun r => exists x x0 a, In x (it :: rest) /\
                      In x0 (before ++ it :: rest) /\ P r x x0 a)
                   (records (match find is_mask it with
                             | Some a => Some (mask_language a, mask_thumbnail a,
                                               mask_watch a)
                             | None => last
                             end) rest)).
  { intros P HF. eapply Forall_impl; [|exact HF]. cbv beta.
    intros r (x & x0 & a & Hx & Hx0 & HP). exists x, x0, a.
    rewrite <- app_assoc in Hx0. cbn in Hx0. split; [now right|]. auto. }
  destruct (find is_mask it) as [a|] eqn:Ha.
  - assert (Hrest :
      Forall (fun r => exists x x0 a0, In x (it :: rest) /\
                In x0 (before ++ it :: rest) /\
                find is_mask x0 = Some a0 /\ masked_by a0 r x)
             (records (Some (mask_language a, mask_thumbnail a, mask_watch a))
                      rest)).
    { apply (Hshift (fun r x x0 a => find is_mask x0 = Some a /\ masked_by a r x)).
      apply IH. exists it, a. split; [apply in_or_app; right; now left|]. auto. }
    cbv zeta. destruct (overflows it); [exact Hrest|].
    constructor; [|exact Hrest].
    exists it, it, a. split; [now left|]. split; [apply in_elt|].
    split; [exact Ha|]. split; [reflexivity|]. congruence.
  - destruct last as [[[l t] w]|].
    + destruct Hlast as (it0 & a & Hin & Hm & [= -> -> ->]).
      assert (Hrest :
        Forall (fun r => exists x x0 a0, In x (it :: rest) /\
                  In x0 (before ++ it :: rest) /\
                  find is_mask x0 = Some a0 /\ masked_by a0 r x)
               (records (Some (mask_language a, mask_thumbnail a, mask_watch a))
                        rest)).
      { apply (Hshift (fun r x x0 a => find is_mask x0 = Some a /\ masked_by a r x)).
        apply IH. exists it0, a. split; [apply in_or_app; now left|]. auto. }
      destruct (overflows it); [exact Hrest|].
      constructor; [|exact Hrest].
      exists it, it0, a. split; [now left|].
      split; [apply in_or_app; now left|]. split; [exact Hm|].
      split; [reflexivity|]. intros _. cbn. now apply title_of_maskless.
    + apply (Hshift (fun r x x0 a => find is_mask x0 = Some a /\ masked_by a r x)).
      now apply IH.
Qed.

(** In every record that a call returns, the language, thumbnail and
    watch link come together from one mask of the page, never from two:
    the mask of the item of the record or of an item of the container;
    and a record of an item with no mask has no title. *)
Theorem returned_mask_fields_go_together (soup c : node)
  (out : list out_line) :
  find is_container soup = Some c ->
  exists recs out',
    extract_movies_from_soup soup out = (Ok recs, out') /\
    Forall (fun r => exists it it0 a,
              In it (find_all is_item c) /\ In it0 (find_all is_item c) /\
              find is_mask it0 = Some a /\ masked_by a r it) recs.
Proof.
  intros Hc. destruct (extract_with_container soup out Hc) as [Hrecs Hout].
  eexists _, _. split; [exact (pair_eta _ Hrecs Hout)|].
  apply (records_masked_by (find_all is_item c) [] None I).
Qed.


End Interpreter.

(** * The statements on sample pages *)

Lemma sample_depth : (2 <= Sample.depth)%nat.
Proof. apply Nat.leb_le. reflexivity. Qed.

(** ** Items without a mask *)

(** C1 fails on the code.  The page holds one item, which has no mask:
    when the dictionary is built, [language] was never assigned, the
    [try] raises and the item is skipped, although its id, description,
    year, rating, duration and genres are all there to be read.  This
    is so at every depth that lets [tag.string] return on the blocks of
    the item, which nest two tags at most. *)
Theorem maskless_item_is_skipped (depth : nat) :
  (2 <= depth)%nat ->
  extract_movies_from_soup depth (Sample.page [Sample.maskless]) [] =
  (Ok [], [ErrorParsingItem (UnboundLocalError "language")]).
Proof.
  intros H. destruct depth as [|[|d]]; [lia|lia|]. vm_compute. reflexivity.
Qed.

Lemma maskless_item_is_skipped_witness :
  extract_movies_from_soup Sample.depth (Sample.page [Sample.maskless]) [] =
  (Ok [], [ErrorParsingItem (UnboundLocalError "language")]).
Proof. apply maskless_item_is_skipped. exact sample_depth. Defined.

(** C4 fails on the code.  The item without a mask gets no record when
    it is alone on the page, and after an item with a mask it gets a
    record whose [links.watch], [language] and [thumbnail] are those of
    that other item: they change with the item that comes before. *)
Theorem record_depends_on_previous_item (depth : nat) :
  (2 <= depth)%nat ->
  fst (extract_movies_from_soup depth (Sample.page [Sample.maskless]) []) =
    Ok [] /\
  (exists r1 r2,
     fst (extract_movies_from_soup depth
            (Sample.page [Sample.complete; Sample.maskless]) []) = Ok [r1; r2] /\
     Movie.id r2 = Some 456%Z /\
     Links.watch (Movie.links r2) = Some "/watch/1" /\
     Movie.language r2 = Some "HD" /\
     Movie.thumbnail r2 = Some "/img/1.jpg") /\
  (exists r1 r2,
     fst (extract_movies_from_soup depth
            (Sample.page [Sample.upper_genre; Sample.maskless]) []) = Ok [r1; r2] /\
     Movie.id r2 = Some 456%Z /\
     Links.watch (Movie.links r2) = Some "/watch/8").
Proof.
  intros H. destruct depth as [|[|d]]; [lia|lia|].
  split; [vm_compute; reflexivity|]. split.
  - eexists _, _. split; [vm_compute; reflexivity|]. cbn. auto.
  - eexists _, _. split; [vm_compute; reflexivity|]. cbn. auto.
Qed.

Lemma record_depends_on_previous_item_witness :
  fst (extract_movies_from_soup Sample.depth (Sample.page [Sample.maskless]) []) =
    Ok [] /\
  exists r1 r2,
    fst (extract_movies_from_soup Sample.depth
           (Sample.page [Sample.complete; Sample.maskless]) []) = Ok [r1; r2] /\
    Links.watch (Movie.links r2) = Some "/watch/1".
Proof.
  destruct (@record_depends_on_previous_item Sample.depth sample_depth)
    as (H1 & (r1 & r2 & H2 & _ & Hw & _) & _).
  split; [exact H1|]. exists r1, r2. auto.
Defined.

(** ** Blocks that hold the label next to their links *)

(** C5 fails on the code.  The details of the item hold a [div] whose
    own text holds the label [Country:] and whose first link reads
    [India]; the record of the item has no country and no country link.
    The search compares the label with [tag.string], which a [div] with
    a text and a link beside it does not have. *)
Theorem country_beside_label_is_lost (depth : nat) :
  (2 <= depth)%nat ->
  (exists b a,
     In b (descendants (item_hidden Sample.beside_label)) /\
     name b = Some "div" /\
     contains "Country:" (own_text b) = true /\
     find (named "a") b = Some a /\
     safe_text (Some a) = Some "India" /\
     get "href" a = Some "/country/india/") /\
  exists r,
    extract_movies_from_soup depth (Sample.page [Sample.beside_label]) [] =
      (Ok [r], []) /\
    Movie.country r = None /\
    Links.country (Movie.links r) = None.
Proof.
  intros H. split.
  - exists (Tag "div" ["block"] []
              [Sample.txt "Country: ";
               Tag "a" [] [("href", "/country/india/")] [Sample.txt "India"]]),
           (Tag "a" [] [("href", "/country/india/")] [Sample.txt "India"]).
    split; [cbn; tauto|]. repeat split; reflexivity.
  - destruct depth as [|[|d]]; [lia|lia|].
    eexists. split; [vm_compute; reflexivity|]. split; reflexivity.
Qed.

Lemma country_beside_label_is_lost_witness :
  exists r,
    extract_movies_from_soup Sample.depth (Sample.page [Sample.beside_label]) [] =
      (Ok [r], []) /\
    Movie.country r = None /\
    Links.country (Movie.links r) = None.
Proof.
  destruct (@country_beside_label_is_lost Sample.depth sample_depth) as [_ H].
  exact H.
Defined.

(** C6 fails on the code.  The details of the item hold a [div] whose
    own text holds the label [Genre:], with three links inside it that
    read [Action], [Drama] and [Action]; the record of the item has the
    one genre [Action].  The search compares the label with
    [tag.string], which this [div] does not have, so the links are taken
    by the fallback: [Drama] does not lead to a genre page and the
    second [Action] is a name already seen. *)
Theorem genres_beside_label_are_lost (depth : nat) :
  (2 <= depth)%nat ->
  (exists b,
     In b (descendants (item_hidden Sample.beside_genres)) /\
     name b = Some "div" /\
     contains "Genre:" (own_text b) = true /\
     link_pairs (find_all (named "a") b) =
       [("Action", Some "/genre/action/");
        ("Drama", Some "/tag/drama/");
        ("Action", Some "/genre/action/page/2/")]) /\
  exists r,
    extract_movies_from_soup depth (Sample.page [Sample.beside_genres]) [] =
      (Ok [r], []) /\
    Movie.genres r = ["Action"] /\
    Links.genres (Movie.links r) = [Some "/genre/action/"].
Proof.
  intros H. split.
  - exists (Tag "div" ["block"] []
              [Sample.txt "Genre: ";
               Tag "a" [] [("href", "/genre/action/")] [Sample.txt "Action"];
               Sample.txt ", ";
               Tag "a" [] [("href", "/tag/drama/")] [Sample.txt "Drama"];
               Sample.txt ", ";
               Tag "a" [] [("href", "/genre/action/page/2/")] [Sample.txt "Action"]]).
    split; [cbn; tauto|]. repeat split; reflexivity.
  - destruct depth as [|[|d]]; [lia|lia|].
    eexists. split; [vm_compute; reflexivity|]. split; reflexivity.
Qed.

Lemma genres_beside_label_are_lost_witness :
  exists r,
    extract_movies_from_soup Sample.depth (Sample.page [Sample.beside_genres]) [] =
      (Ok [r], []) /\
    Movie.genres r = ["Action"] /\
    Links.genres (Movie.links r) = [Some "/genre/action/"].
Proof.
  destruct (@genres_beside_label_are_lost Sample.depth sample_depth) as [_ H].
  exact H.
Defined.

(** ** The extractor on sample pages *)

Lemma extract_never_raises_witness :
  exists recs out',
    extract_movies_from_soup Sample.depth (Tag "[document]" [] [] []) [] =
      (Ok recs, out') /\
    recs = [] /\ out' = [].
Proof.
  destruct (extract_never_raises Sample.depth (Tag "[document]" [] [] []) [])
    as (recs & out' & H & Hnone).
  exists recs, out'. split; [exact H|]. apply Hnone. reflexivity.
Defined.

(** The second of three items overflows: the items before it and after
    it get their records. *)
Lemma raising_item_is_skipped_witness :
  exists recs1 recs2 e,
    extract_movies_from_soup Sample.depth
      (Sample.page [Sample.complete; Sample.deep; Sample.wordy]) [] =
      (Ok (recs1 ++ recs2)%list, [ErrorParsingItem e]) /\
    Forall2 record_of recs1 [Sample.complete] /\
    Forall2 record_of recs2 [Sample.wordy].
Proof.
  apply (@raising_item_is_skipped Sample.depth
           (Sample.page [Sample.complete; Sample.deep; Sample.wordy])
           (Tag "div" ["movies-list"] []
              [Sample.complete; Sample.deep; Sample.wordy])
           [] [Sample.complete] Sample.deep [Sample.wordy]);
    vm_compute; reflexivity.
Defined.

Lemma genres_match_their_links_witness :
  Forall (genres_parallel (Sample.page [Sample.complete; Sample.genre_block]))
    (match fst (extract_movies_from_soup Sample.depth
                  (Sample.page [Sample.complete; Sample.genre_block]) []) with
     | Ok recs => recs
     | Raise _ => []
     end).
Proof.
  apply (@genres_match_their_links Sample.depth
           (Sample.page [Sample.complete; Sample.genre_block]) [] []).
  vm_compute. reflexivity.
Defined.

Lemma numeric_fields_or_none_witness :
  exists r,
    movies (snd (item_try Sample.depth Sample.wordy frame0)) = [r] /\
    Movie.id r = None /\ Movie.year r = None /\ Movie.imdb_rating r = None.
Proof.
  destruct (numeric_fields_or_none Sample.depth Sample.wordy frame0) as (_ & _ & H).
  destruct (H (snd (item_try Sample.depth Sample.wordy frame0)) eq_refl)
    as (r & Hr & Hid & Hyear & Himdb).
  exists r. split; [exact Hr|]. split; [|split].
  - apply (Hid "tt-x12" ValueError); reflexivity.
  - apply (Hyear (Tag "a" [] [("href", "/release-year/soon/")]
                    [NavigableString "coming soon"])); [reflexivity|].
    intros t [= <-]. reflexivity.
  - apply (Himdb (Tag "div" ["jt-imdb"] [] [NavigableString "IMDb: n/a"]));
      [reflexivity|].
    intros t [= <-]. reflexivity.
Defined.

(** C10 fails as stated: the server answers 200 with an empty body, the
    fetch returns this page text, and the run writes nothing. *)
Lemma empty_page_is_not_written :
  ~ writes_iff_fetched Sample.depth
      (fun _ => Tag "[document]" [] [] []) Sample.empty_pages.
Proof.
  intros [_ H]. apply H.
  - exists "". reflexivity.
  - reflexivity.
Qed.

(** ** Further properties on sample pages *)

Lemma extract_is_records_witness :
  extract_movies_from_soup Sample.depth
    (Sample.page [Sample.maskless; Sample.deep; Sample.maskless]) [] =
  (Ok [movie_of Sample.maskless (Some "HD") (Some "/img/1.jpg") (Some "/watch/10")],
   [ErrorParsingItem (UnboundLocalError "language");
    ErrorParsingItem RecursionError]).
Proof.
  rewrite (@extract_is_records Sample.depth
             (Sample.page [Sample.maskless; Sample.deep; Sample.maskless])
             (Tag "div" ["movies-list"] []
                [Sample.maskless; Sample.deep; Sample.maskless]) [] eq_refl).
  vm_compute. reflexivity.
Defined.

Lemma skipped_items_lead_witness :
  exists recs lines,
    extract_movies_from_soup Sample.depth
      (Sample.page [Sample.maskless; Sample.complete; Sample.maskless]) [] =
      (Ok recs, lines) /\
    length lines = 1%nat /\
    Forall2 record_of recs [Sample.complete; Sample.maskless].
Proof.
  destruct (@skipped_items_lead Sample.depth
              (Sample.page [Sample.maskless; Sample.complete; Sample.maskless])
              (Tag "div" ["movies-list"] []
                 [Sample.maskless; Sample.complete; Sample.maskless])
              [] eq_refl)
    as (recs & lines & Hrun & Hlen & _ & _ & Hrecs).
  - repeat constructor.
  - exists recs, lines. auto.
Defined.

Lemma extract_masked_is_map_witness :
  extract_movies_from_soup Sample.depth
    (Sample.page [Sample.complete; Sample.wordy]) [] =
  (Ok [own_record Sample.complete; own_record Sample.wordy], []).
Proof.
  apply (@extract_masked_is_map Sample.depth
           (Sample.page [Sample.complete; Sample.wordy])
           (Tag "div" ["movies-list"] [] [Sample.complete; Sample.wordy]) []).
  - reflexivity.
  - repeat constructor; discriminate.
  - repeat constructor.
Defined.

Lemma returned_texts_not_empty_witness :
  Forall texts_not_empty
    (records Sample.depth None [Sample.maskless; Sample.complete; Sample.maskless]).
Proof.
  apply (@returned_texts_not_empty Sample.depth
           (Sample.page [Sample.maskless; Sample.complete; Sample.maskless])
           [] [ErrorParsingItem (UnboundLocalError "language")]).
  vm_compute. reflexivity.
Defined.

Lemma returned_years_in_range_witness :
  Forall (fun r => forall z, Movie.year r = Some z ->
            (0 <= z <= 9999)%Z /\
            exists u, Links.year (Movie.links r) = Some u /\
                      contains "/release-year/" u = true)
    (records Sample.depth None [Sample.complete; Sample.wordy]).
Proof.
  apply (@returned_years_in_range Sample.depth
           (Sample.page [Sample.complete; Sample.wordy]) [] []).
  vm_compute. reflexivity.
Defined.



Lemma fallback_genre_urls_witness :
  exists r,
    movies (snd (item_try Sample.depth Sample.complete frame0)) = [r] /\
    NoDup (Movie.genres r) /\
    Forall (fun u => exists v, u = Some v /\ contains "/genre/" v = true)
           (Links.genres (Movie.links r)).
Proof.
  apply (@fallback_genre_urls Sample.depth Sample.complete frame0
           (snd (item_try Sample.depth Sample.complete frame0)));
    vm_compute; reflexivity.
Defined.

Lemma country_holds_label_witness :
  exists r,
    movies (snd (item_try Sample.depth Sample.lower_country frame0)) = [r] /\
    forall c, Movie.country r = Some c -> icontains "Country:" c = true.
Proof.
  apply (@country_holds_label Sample.depth Sample.lower_country frame0
           (snd (item_try Sample.depth Sample.lower_country frame0))).
  vm_compute. reflexivity.
Defined.

Lemma block_genres_hold_label_witness :
  exists r,
    movies (snd (item_try Sample.depth Sample.genre_block frame0)) = [r] /\
    Forall (fun g => icontains "Genre:" g = true) (Movie.genres r) /\
    forall g1 g2, In g1 (Movie.genres r) -> In g2 (Movie.genres r) -> g1 = g2.
Proof.
  apply (@block_genres_hold_label Sample.depth Sample.genre_block frame0
           (snd (item_try Sample.depth Sample.genre_block frame0))
           (Tag "div" ["block"] []
              [Tag "span" [] []
                 [Tag "a" [] [("href", "/genre/war/")]
                    [NavigableString "Genre: War"]]]));
    vm_compute; reflexivity.
Defined.

Lemma returned_durations_read_as_minutes_witness :
  Forall (fun r => forall d, Movie.duration r = Some d ->
            has_digit d = true /\ icontains "min" d = true /\
            exists ji, In ji (descendants (Sample.page [Sample.complete])) /\
                       is_info ji = true /\ safe_text (Some ji) = Some d)
    (records Sample.depth None [Sample.complete]).
Proof.
  apply (@returned_durations_read_as_minutes Sample.depth
           (Sample.page [Sample.complete]) [] []).
  vm_compute. reflexivity.
Defined.

Lemma returned_mask_fields_go_together_witness :
  exists recs out',
    extract_movies_from_soup Sample.depth
      (Sample.page [Sample.complete; Sample.maskless]) [] = (Ok recs, out') /\
    Forall (fun r => exists it it0 a,
              In it [Sample.complete; Sample.maskless] /\
              In it0 [Sample.complete; Sample.maskless] /\
              find is_mask it0 = Some a /\ masked_by a r it) recs.
Proof.
  apply (@returned_mask_fields_go_together Sample.depth
           (Sample.page [Sample.complete; Sample.maskless])
           (Tag "div" ["movies-list"] [] [Sample.complete; Sample.maskless]) []).
  reflexivity.
Defined.
